(** * CPU JPEG encoder of uStreamer: pixel-format feeders and streaming sink

    Shallow embedding of [src/ustreamer/encoders/cpu/encoder.c].

    Conventions of the embedding.
    - A byte buffer is a [list Z]; a C pointer into it is a [Z] offset.  A
      read through a pointer is [load], which is [None] outside the buffer
      (undefined behaviour in C).
    - [int] and [unsigned] values are [Z].  The pixel arithmetic stays far
      inside the 32-bit range (see [yuv_math_fits_int]); a store into a
      [uint8_t] cell is written out as [u8].  Frame dimensions are taken in
      the range where the C index arithmetic on them does not overflow.
    - The external JPEG library consumes one row per call of
      [jpeg_write_scanlines]: a feeder is modelled by the list of rows it
      hands over, a row being [None] when producing it reads outside a
      buffer. *)

From Stdlib Require Import Ascii.
From stdpp Require Import base numbers option list.

Local Open Scope Z_scope.

(** ** Buffers *)

Definition load (m : list Z) (i : Z) : option Z :=
  if decide (0 ≤ i) then m !! Z.to_nat i else None.

Definition store (m : list Z) (i v : Z) : option (list Z) :=
  if decide (0 ≤ i < Z.of_nat (length m)) then Some (<[Z.to_nat i := v]> m) else None.

(** What [jpeg_write_scanlines(jpeg, scanlines, 1)] reads from the row pointer
    [off]: [n] consecutive bytes ([n] is [image_width * input_components]). *)
Fixpoint read_bytes (m : list Z) (off : Z) (n : nat) : option (list Z) :=
  match n with
  | O => Some []
  | S k => b ← load m off; rest ← read_bytes m (off + 1) k; Some (b :: rest)
  end.

(** A store into a [uint8_t]. *)
Definition u8 (x : Z) : Z := x `mod` 256.

(** ** Frames *)

(** The fields of [us_frame_s] that the encoder uses.  [padding] holds the
    value that [us_frame_get_padding] returns for the frame. *)
Record us_frame_s := Frame {
  width : Z;
  height : Z;
  format : Z;
  padding : Z;
  data : list Z;
  used : Z
}.

(** Modelled from the spec: [us_frame_get_padding] is defined in the frame
    module, outside this file; the spec gives it as the derived padding value
    of the Source Frame, the bytes appended after each logical row to reach
    the stride. *)
Definition us_frame_get_padding (frame : us_frame_s) : Z := padding frame.

(** [while (jpeg->next_scanline < frame->height) { ... }]: [next_scanline] is
    0 after [jpeg_start_compress] and each [jpeg_write_scanlines(.., 1)] adds
    one, so the body runs once per row; it yields the row handed to the
    compressor and the feeder's updated locals. *)
Fixpoint scanline_loop {S : Type} (body : S → option (list Z) * S)
    (rows : nat) (s : S) : list (option (list Z)) :=
  match rows with
  | O => []
  | Datatypes.S k => let '(row, s') := body s in row :: scanline_loop body k s'
  end.

(** ** Colour math of the packed 4:2:2 paths *)

Definition YUV_R (_y _u _v : Z) : Z := (_y + 359 * _v) ≫ 8.
Definition YUV_G (_y _u _v : Z) : Z := (_y - 88 * _u - 183 * _v) ≫ 8.
Definition YUV_B (_y _u _v : Z) : Z := (_y + 454 * _u) ≫ 8.
Definition NORM_COMPONENT (_x : Z) : Z :=
  if decide (_x > 255) then 255 else if decide (_x < 0) then 0 else _x.

(** The three stores [*(ptr++) = NORM_COMPONENT(..)] of one pixel. *)
Definition yuv_store (y u v : Z) : list Z :=
  let r := YUV_R y u v in
  let g := YUV_G y u v in
  let b := YUV_B y u v in
  [u8 (NORM_COMPONENT r); u8 (NORM_COMPONENT g); u8 (NORM_COMPONENT b)].

(** [if (z++) { z = 0; data += 4; }] *)
Definition z_step (d z : Z) : Z * Z :=
  if decide (z ≠ 0) then (d + 4, 0) else (d, z + 1).

(** *** _jpeg_write_scanlines_yuyv *)

Definition yuyv_pixel (data : list Z) (d z : Z) : option (list Z) :=
  y0 ← (if decide (z = 0) then load data (d + 0) else load data (d + 2));
  u0 ← load data (d + 1);
  v0 ← load data (d + 3);
  let y := y0 ≪ 8 in
  let u := u0 - 128 in
  let v := v0 - 128 in
  Some (yuv_store y u v).

(** [for (unsigned x = 0; x < frame->width; ++x)]: [n] pixels left. *)
Fixpoint yuyv_line (data : list Z) (n : nat) (d z : Z) : option (list Z) * (Z * Z) :=
  match n with
  | O => (Some [], (d, z))
  | S k =>
      let px := yuyv_pixel data d z in
      let '(d', z') := z_step d z in
      let '(rest, st) := yuyv_line data k d' z' in
      (p ← px; r ← rest; Some (p ++ r), st)
  end.

Definition _jpeg_write_scanlines_yuyv (frame : us_frame_s) : list (option (list Z)) :=
  let padding := us_frame_get_padding frame in
  scanline_loop
    (λ '(d, z), let '(line_buf, (d', z')) := yuyv_line (data frame) (Z.to_nat (width frame)) d z in
                (line_buf, (d' + padding, z')))
    (Z.to_nat (height frame)) (0, 0).

(** *** _jpeg_write_scanlines_uyvy *)

Definition uyvy_pixel (data : list Z) (d z : Z) : option (list Z) :=
  y0 ← (if decide (z = 0) then load data (d + 1) else load data (d + 3));
  u0 ← load data (d + 0);
  v0 ← load data (d + 2);
  let y := y0 ≪ 8 in
  let u := u0 - 128 in
  let v := v0 - 128 in
  Some (yuv_store y u v).

Fixpoint uyvy_line (data : list Z) (n : nat) (d z : Z) : option (list Z) * (Z * Z) :=
  match n with
  | O => (Some [], (d, z))
  | S k =>
      let px := uyvy_pixel data d z in
      let '(d', z') := z_step d z in
      let '(rest, st) := uyvy_line data k d' z' in
      (p ← px; r ← rest; Some (p ++ r), st)
  end.

Definition _jpeg_write_scanlines_uyvy (frame : us_frame_s) : list (option (list Z)) :=
  let padding := us_frame_get_padding frame in
  scanline_loop
    (λ '(d, z), let '(line_buf, (d', z')) := uyvy_line (data frame) (Z.to_nat (width frame)) d z in
                (line_buf, (d' + padding, z')))
    (Z.to_nat (height frame)) (0, 0).

(** ** Packed RGB paths *)

(** *** _jpeg_write_scanlines_rgb565 *)

Definition rgb565_pixel (data : list Z) (d : Z) : option (list Z) :=
  d0 ← load data (d + 0);
  d1 ← load data (d + 1);
  let two_byte := (d1 ≪ 8) + d0 in
  Some [u8 (Z.land d1 248); u8 ((Z.land two_byte 2016) ≫ 3); u8 (Z.land d0 31 * 8)].

Fixpoint rgb565_line (data : list Z) (n : nat) (d : Z) : option (list Z) * Z :=
  match n with
  | O => (Some [], d)
  | S k =>
      let px := rgb565_pixel data d in
      let '(rest, d') := rgb565_line data k (d + 2) in
      (p ← px; r ← rest; Some (p ++ r), d')
  end.

Definition _jpeg_write_scanlines_rgb565 (frame : us_frame_s) : list (option (list Z)) :=
  let padding := us_frame_get_padding frame in
  scanline_loop
    (λ d, let '(line_buf, d') := rgb565_line (data frame) (Z.to_nat (width frame)) d in
          (line_buf, d' + padding))
    (Z.to_nat (height frame)) 0.

(** *** _jpeg_write_scanlines_bgr24 *)

(** [for (unsigned x = 0; x < frame->width * 3; x += 3)]: [n] pixels left. *)
Fixpoint bgr24_line (data : list Z) (d : Z) (n : nat) (x : Z) : option (list Z) :=
  match n with
  | O => Some []
  | S k =>
      r ← load data (d + (x + 2));
      g ← load data (d + (x + 1));
      b ← load data (d + x);
      rest ← bgr24_line data d k (x + 3);
      Some (r :: g :: b :: rest)
  end.

Definition _jpeg_write_scanlines_bgr24 (frame : us_frame_s) : list (option (list Z)) :=
  let padding := us_frame_get_padding frame in
  scanline_loop
    (λ d, (bgr24_line (data frame) d (Z.to_nat (width frame)) 0,
           d + (width frame * 3 + padding)))
    (Z.to_nat (height frame)) 0.

(** *** _jpeg_write_scanlines_rgb24 *)

Definition _jpeg_write_scanlines_rgb24 (frame : us_frame_s) : list (option (list Z)) :=
  let padding := us_frame_get_padding frame in
  scanline_loop
    (λ d, (read_bytes (data frame) d (Z.to_nat (width frame * 3)),
           d + (width frame * 3 + padding)))
    (Z.to_nat (height frame)) 0.

(** ** Semi-planar paths *)

(** [for (int k = ..; k < bound; k++) body]: [n] iterations left, at index [k];
    the state is the output buffer, [None] after an access outside a buffer. *)
Fixpoint for_loop {S : Type} (body : Z → S → option S) (n : nat) (k : Z) (s : S) : option S :=
  match n with
  | O => Some s
  | Datatypes.S m => s' ← body k s; for_loop body m (k + 1) s'
  end.

(** *** _nv16_to_rgb24 *)

Definition nv16_pixel (inp : list Z) (width height i j : Z) (out : list Z) : option (list Z) :=
  let frame_size := width * height in
  let uv_offset := frame_size in
  let y_index := i * width + j in
  let uv_index := uv_offset + (i * width) + Z.land j (Z.lnot 1) in
  Y ← load inp y_index;
  U0 ← load inp uv_index;
  V0 ← load inp (uv_index + 1);
  let U := U0 - 128 in
  let V := V0 - 128 in
  let R := (298 * (Y - 16) + 409 * V + 128) ≫ 8 in
  let G := (298 * (Y - 16) - 100 * U - 208 * V + 128) ≫ 8 in
  let B := (298 * (Y - 16) + 516 * U + 128) ≫ 8 in
  let R := if decide (R < 0) then 0 else if decide (R > 255) then 255 else R in
  let G := if decide (G < 0) then 0 else if decide (G > 255) then 255 else G in
  let B := if decide (B < 0) then 0 else if decide (B > 255) then 255 else B in
  let rgb_index := y_index * 3 in
  out ← store out rgb_index (u8 R);
  out ← store out (rgb_index + 1) (u8 G);
  store out (rgb_index + 2) (u8 B).

Definition _nv16_to_rgb24 (inp out : list Z) (width height : Z) : option (list Z) :=
  for_loop (λ i, for_loop (λ j, nv16_pixel inp width height i j) (Z.to_nat width) 0)
    (Z.to_nat height) 0 out.

(** *** _nv12_to_rgb24 *)

Definition nv12_pixel (inp : list Z) (width height i j : Z) (out : list Z) : option (list Z) :=
  let frame_size := width * height in
  let uv_offset := frame_size in
  let uv_index := (i ÷ 2) * width + 2 * (j ÷ 2) in
  Y ← load inp (i * width + j);
  U ← load inp (uv_offset + uv_index);
  V ← load inp (uv_offset + uv_index + 1);
  let C := Y - 16 in
  let D := U - 128 in
  let E := V - 128 in
  let R := (298 * C + 409 * E + 128) ≫ 8 in
  let G := (298 * C - 100 * D - 208 * E + 128) ≫ 8 in
  let B := (298 * C + 516 * D + 128) ≫ 8 in
  let R := if decide (R < 0) then 0 else if decide (R > 255) then 255 else R in
  let G := if decide (G < 0) then 0 else if decide (G > 255) then 255 else G in
  let B := if decide (B < 0) then 0 else if decide (B > 255) then 255 else B in
  let rgb_index := (i * width + j) * 3 in
  out ← store out rgb_index (u8 R);
  out ← store out (rgb_index + 1) (u8 G);
  store out (rgb_index + 2) (u8 B).

Definition _nv12_to_rgb24 (inp out : list Z) (width height : Z) : option (list Z) :=
  for_loop (λ i, for_loop (λ j, nv12_pixel inp width height i j) (Z.to_nat width) 0)
    (Z.to_nat height) 0 out.

(** *** _nv24_to_rgb24 *)

Definition nv24_pixel (inp : list Z) (width height i j : Z) (out : list Z) : option (list Z) :=
  let frame_size := width * height in
  let uv_offset := frame_size in
  let y_index := i * width + j in
  let uv_index := uv_offset + (2 * j) + (i * width * 2) in
  Y ← load inp y_index;
  U0 ← load inp uv_index;
  V0 ← load inp (uv_index + 1);
  let U := U0 - 128 in
  let V := V0 - 128 in
  let R := (298 * (Y - 16) + 409 * V + 128) ≫ 8 in
  let G := (298 * (Y - 16) - 100 * U - 208 * V + 128) ≫ 8 in
  let B := (298 * (Y - 16) + 516 * U + 128) ≫ 8 in
  let R := if decide (R < 0) then 0 else if decide (R > 255) then 255 else R in
  let G := if decide (G < 0) then 0 else if decide (G > 255) then 255 else G in
  let B := if decide (B < 0) then 0 else if decide (B > 255) then 255 else B in
  let rgb_index := y_index * 3 in
  out ← store out rgb_index (u8 R);
  out ← store out (rgb_index + 1) (u8 G);
  store out (rgb_index + 2) (u8 B).

Definition _nv24_to_rgb24 (inp out : list Z) (width height : Z) : option (list Z) :=
  for_loop (λ i, for_loop (λ j, nv24_pixel inp width height i j) (Z.to_nat width) 0)
    (Z.to_nat height) 0 out.

(** *** The three semi-planar feeders

    [US_CALLOC(rgb, n)] gives [n] zero bytes.  Each feeder converts the whole
    frame into [rgb], then hands the compressor the pointer [data] into [rgb]
    and advances it by [(frame->width * 3) + padding] per row.  When the
    conversion itself leaves a buffer no row is defined. *)
Definition nv_feed (rgb : option (list Z)) (frame : us_frame_s) (padding : Z)
    : list (option (list Z)) :=
  match rgb with
  | Some rgb =>
      scanline_loop
        (λ d, (read_bytes rgb d (Z.to_nat (width frame * 3)),
               d + (width frame * 3 + padding)))
        (Z.to_nat (height frame)) 0
  | None => replicate (Z.to_nat (height frame)) None
  end.

Definition _jpeg_write_scanlines_nv16 (frame : us_frame_s) : list (option (list Z)) :=
  let padding := us_frame_get_padding frame in
  let rgb := replicate (Z.to_nat (width frame * height frame * 3)) 0 in
  nv_feed (_nv16_to_rgb24 (data frame) rgb (width frame) (height frame)) frame padding.

Definition _jpeg_write_scanlines_nv12 (frame : us_frame_s) : list (option (list Z)) :=
  let padding := us_frame_get_padding frame in
  let rgb := replicate (Z.to_nat (width frame * height frame * 3)) 0 in
  nv_feed (_nv12_to_rgb24 (data frame) rgb (width frame) (height frame)) frame padding.

Definition _jpeg_write_scanlines_nv24 (frame : us_frame_s) : list (option (list Z)) :=
  let padding := us_frame_get_padding frame in
  let rgb := replicate (Z.to_nat (width frame * height frame * 3)) 0 in
  nv_feed (_nv24_to_rgb24 (data frame) rgb (width frame) (height frame)) frame padding.

(** ** Streaming sink *)

Definition JPEG_OUTPUT_BUFFER_SIZE : Z := 4096.

(** [size_t] arithmetic (64-bit). *)
Definition size_t (x : Z) : Z := x `mod` 2 ^ 64.

(** [next_output_byte] is kept as an offset from [buf]. *)
Record _jpeg_dest_manager_s := DestMgr {
  next_output_byte : Z;
  free_in_buffer : Z;
  buf : list Z;
  frame : us_frame_s
}.

(** Modelled from the spec: [us_frame_append_data] is defined in the frame
    module, outside this file.  The Destination Frame is an append-only byte
    buffer with a used length: the call appends [size] bytes read from the
    given pointer after the [used] bytes already there and adds [size] to
    [used] (capacity beyond [used] is not modelled). *)
Definition us_frame_append_data (f : us_frame_s) (bytes : list Z) (size : Z) : us_frame_s :=
  Frame (width f) (height f) (format f) (padding f)
    (take (Z.to_nat (used f)) (data f) ++ take (Z.to_nat size) bytes)
    (used f + size).

(** [_jpeg_set_dest_frame]: the callbacks are installed (they are the three
    definitions below), the frame is attached and its used length reset. *)
Definition _jpeg_set_dest_frame (dest : _jpeg_dest_manager_s) (f : us_frame_s)
    : _jpeg_dest_manager_s :=
  DestMgr (next_output_byte dest) (free_in_buffer dest) (buf dest)
    (Frame (width f) (height f) (format f) (padding f) (data f) 0).

(** [alloc_small] gives a buffer of [JPEG_OUTPUT_BUFFER_SIZE] bytes of
    unspecified content, here [fresh]. *)
Definition _jpeg_init_destination (fresh : list Z) (dest : _jpeg_dest_manager_s)
    : _jpeg_dest_manager_s :=
  DestMgr 0 JPEG_OUTPUT_BUFFER_SIZE
    (take (Z.to_nat JPEG_OUTPUT_BUFFER_SIZE) fresh
       ++ replicate (Z.to_nat JPEG_OUTPUT_BUFFER_SIZE - length fresh) 0)
    (frame dest).

(** Returns [TRUE]. *)
Definition _jpeg_empty_output_buffer (dest : _jpeg_dest_manager_s)
    : _jpeg_dest_manager_s * bool :=
  (DestMgr 0 JPEG_OUTPUT_BUFFER_SIZE (buf dest)
     (us_frame_append_data (frame dest) (buf dest) JPEG_OUTPUT_BUFFER_SIZE),
   true).

Definition _jpeg_term_destination (dest : _jpeg_dest_manager_s) : _jpeg_dest_manager_s :=
  let final := size_t (JPEG_OUTPUT_BUFFER_SIZE - free_in_buffer dest) in
  DestMgr (next_output_byte dest) (free_in_buffer dest) (buf dest)
    (us_frame_append_data (frame dest) (buf dest) final).

(** Modelled from the spec: the compressor itself is the external JPEG
    library.  Its side of the sink contract: it writes each byte of the
    compressed stream at the cursor, and invokes flush-when-full whenever the
    chunk buffer is completely filled.  The count of flush invocations is
    returned next to the state. *)
Definition jpeg_emit_byte (dest : _jpeg_dest_manager_s) (val : Z)
    : _jpeg_dest_manager_s * nat :=
  let dest' := DestMgr (next_output_byte dest + 1) (free_in_buffer dest - 1)
                 (<[Z.to_nat (next_output_byte dest) := val]> (buf dest)) (frame dest) in
  if decide (free_in_buffer dest' = 0)
  then ((_jpeg_empty_output_buffer dest').1, 1%nat)
  else (dest', 0%nat).

Fixpoint jpeg_emit (dest : _jpeg_dest_manager_s) (stream : list Z)
    : _jpeg_dest_manager_s * nat :=
  match stream with
  | [] => (dest, 0%nat)
  | val :: rest =>
      let '(dest', n) := jpeg_emit_byte dest val in
      let '(dest'', m) := jpeg_emit dest' rest in
      (dest'', (n + m)%nat)
  end.

(** ** Frame encoder *)

(** Format tags are the V4L2 fourcc codes of [<linux/videodev2.h>]. *)
Definition v4l2_fourcc (a b c d : Ascii.ascii) : Z :=
  Z.lor (Z.lor (Z.lor (Z.of_nat (Ascii.nat_of_ascii a))
                      (Z.of_nat (Ascii.nat_of_ascii b) ≪ 8))
               (Z.of_nat (Ascii.nat_of_ascii c) ≪ 16))
        (Z.of_nat (Ascii.nat_of_ascii d) ≪ 24).

Definition V4L2_PIX_FMT_YUYV : Z := Eval cbv in v4l2_fourcc "Y"%char "U"%char "Y"%char "V"%char.
Definition V4L2_PIX_FMT_UYVY : Z := Eval cbv in v4l2_fourcc "U"%char "Y"%char "V"%char "Y"%char.
Definition V4L2_PIX_FMT_RGB565 : Z := Eval cbv in v4l2_fourcc "R"%char "G"%char "B"%char "P"%char.
Definition V4L2_PIX_FMT_NV12 : Z := Eval cbv in v4l2_fourcc "N"%char "V"%char "1"%char "2"%char.
Definition V4L2_PIX_FMT_NV16 : Z := Eval cbv in v4l2_fourcc "N"%char "V"%char "1"%char "6"%char.
Definition V4L2_PIX_FMT_BGR24 : Z := Eval cbv in v4l2_fourcc "B"%char "G"%char "R"%char "3"%char.
Definition V4L2_PIX_FMT_RGB24 : Z := Eval cbv in v4l2_fourcc "R"%char "G"%char "B"%char "3"%char.
Definition V4L2_PIX_FMT_NV24 : Z := Eval cbv in v4l2_fourcc "N"%char "V"%char "2"%char "4"%char.
Definition V4L2_PIX_FMT_JPEG : Z := Eval cbv in v4l2_fourcc "J"%char "P"%char "E"%char "G"%char.

(** The feeders, as the [switch] names them. *)
Inductive feeder :=
  | Feed_yuyv | Feed_uyvy | Feed_rgb565 | Feed_nv12
  | Feed_nv16 | Feed_bgr24 | Feed_rgb24 | Feed_nv24.

Definition run_feeder (f : feeder) (src : us_frame_s) : list (option (list Z)) :=
  match f with
  | Feed_yuyv => _jpeg_write_scanlines_yuyv src
  | Feed_uyvy => _jpeg_write_scanlines_uyvy src
  | Feed_rgb565 => _jpeg_write_scanlines_rgb565 src
  | Feed_nv12 => _jpeg_write_scanlines_nv12 src
  | Feed_nv16 => _jpeg_write_scanlines_nv16 src
  | Feed_bgr24 => _jpeg_write_scanlines_bgr24 src
  | Feed_rgb24 => _jpeg_write_scanlines_rgb24 src
  | Feed_nv24 => _jpeg_write_scanlines_nv24 src
  end.

(** [switch (src->format) { WRITE_SCANLINES(..) ... default: assert(0 && ..); }]:
    [None] is the failed assertion. *)
Definition switch_format (fmt : Z) : option feeder :=
  if decide (fmt = V4L2_PIX_FMT_YUYV) then Some Feed_yuyv
  else if decide (fmt = V4L2_PIX_FMT_UYVY) then Some Feed_uyvy
  else if decide (fmt = V4L2_PIX_FMT_RGB565) then Some Feed_rgb565
  else if decide (fmt = V4L2_PIX_FMT_NV12) then Some Feed_nv12
  else if decide (fmt = V4L2_PIX_FMT_NV16) then Some Feed_nv16
  else if decide (fmt = V4L2_PIX_FMT_BGR24) then Some Feed_bgr24
  else if decide (fmt = V4L2_PIX_FMT_RGB24) then Some Feed_rgb24
  else if decide (fmt = V4L2_PIX_FMT_NV24) then Some Feed_nv24
  else None.

(** How a call of the entry point ends: on the failed assertion, in an
    undefined read of the feeder that ran, or with the destination frame
    that feeder and sink produced. *)
Inductive compress_result :=
  | AssertionFailed
  | UndefinedRead (by_feeder : feeder)
  | Compressed (by_feeder : feeder) (dest : us_frame_s).

(** Modelled from the spec: [us_frame_encoding_begin] is defined in the frame
    module, outside this file; it resets the destination used-length to zero
    and marks its format as compressed-image. *)
Definition us_frame_encoding_begin (src dest : us_frame_s) (fmt : Z) : us_frame_s :=
  Frame (width src) (height src) fmt 0 (data dest) 0.

Section Compressor.

(** The external compression library: the bytes it emits for an image of
    the given width and height, at the given quality, from the rows it
    was fed; and the content of the chunk buffer it allocates. *)
Variable jpeg_library : Z → Z → Z → list (list Z) → list Z.
Variable alloc_small : list Z.

(** The call from the selected case of the [switch] on: the feeder runs,
    the library emits the stream of the rows into the sink, and
    [jpeg_finish_compress] ends with [term_destination].
    ([us_frame_encoding_end] only stamps the time and is left out.) *)
Definition write_and_finish (f : feeder) (mgr : _jpeg_dest_manager_s)
    (src : us_frame_s) (quality : Z) : compress_result :=
  match mapM id (run_feeder f src) with
  | None => UndefinedRead f
  | Some rows =>
      let stream := jpeg_library (width src) (height src) quality rows in
      let mgr := (jpeg_emit mgr stream).1 in
      let mgr := _jpeg_term_destination mgr in
      Compressed f (frame mgr)
  end.

Definition us_cpu_encoder_compress (src dest : us_frame_s) (quality : Z)
    : compress_result :=
  let dest := us_frame_encoding_begin src dest V4L2_PIX_FMT_JPEG in
  let mgr := _jpeg_set_dest_frame (DestMgr 0 0 [] dest) dest in
  let mgr := _jpeg_init_destination alloc_small mgr in
  match switch_format (format src) with
  | Some f => write_and_finish f mgr src quality
  | None => AssertionFailed
  end.

End Compressor.

(** * Vocabulary of the properties

    The definitions below are not part of the program: they say, from the
    layouts and formulas of the specification, what the program is expected
    to compute, and name the invariants of the proofs. *)

(** ** Buffers *)

(** The byte at offset [i], for offsets known to be inside the buffer. *)
Definition byte_at (m : list Z) (i : Z) : Z := default 0 (load m i).

(** Saturation to 0..255. *)
Definition clamp (x : Z) : Z := Z.max 0 (Z.min 255 x).

(** ** Packed 4:2:2 *)

(** The transform of the packed 4:2:2 family in the words of the spec: bias
    128 taken off the chroma, coefficients 359/88/183/454 on a 256-scaled
    luma, right shift by 8, clamp. *)
Definition yuv422_rgb (Y U V : Z) : list Z :=
  [clamp ((256 * Y + 359 * (V - 128)) ≫ 8);
   clamp ((256 * Y - 88 * (U - 128) - 183 * (V - 128)) ≫ 8);
   clamp ((256 * Y + 454 * (U - 128)) ≫ 8)].

(** Pixel [x] of a row that starts at offset [b]: its group of four bytes
    starts at [b + 4 * (x / 2)]; luma-first the group is Y0 U Y1 V. *)
Definition yuyv_expected_pixel (data : list Z) (b x : Z) : list Z :=
  let g := b + 4 * (x `div` 2) in
  yuv422_rgb (byte_at data (g + 2 * (x `mod` 2))) (byte_at data (g + 1)) (byte_at data (g + 3)).

(** Chroma-first the group is U Y0 V Y1. *)
Definition uyvy_expected_pixel (data : list Z) (b x : Z) : list Z :=
  let g := b + 4 * (x `div` 2) in
  yuv422_rgb (byte_at data (g + 2 * (x `mod` 2) + 1)) (byte_at data g) (byte_at data (g + 2)).

(** The rows of a frame, written from the layout: row [r] starts at
    [r * (2 * width + padding)]. *)
Definition yuyv_expected (f : us_frame_s) : list (list Z) :=
  (λ r, concat (yuyv_expected_pixel (data f) (r * (2 * width f + padding f))
                  <$> seqZ 0 (width f)))
  <$> seqZ 0 (height f).

Definition uyvy_expected (f : us_frame_s) : list (list Z) :=
  (λ r, concat (uyvy_expected_pixel (data f) (r * (2 * width f + padding f))
                  <$> seqZ 0 (width f)))
  <$> seqZ 0 (height f).

(** ** Packed RGB *)

(** The three channels of a 5-6-5 pixel as bit fields: the top five bits of
    the high byte [d1], the six bits in the middle of the 16-bit value, the
    low five bits of the low byte [d0], each moved to the top of its output
    byte. *)
Definition rgb565_rgb (d0 d1 : Z) : list Z :=
  [8 * ((d1 ≫ 3) `mod` 32); 4 * ((((d1 ≪ 8) + d0) ≫ 5) `mod` 64); 8 * (d0 `mod` 32)].

Definition rgb565_expected_pixel (data : list Z) (b x : Z) : list Z :=
  rgb565_rgb (byte_at data (b + 2 * x)) (byte_at data (b + 2 * x + 1)).

Definition rgb565_expected (f : us_frame_s) : list (list Z) :=
  (λ r, concat (rgb565_expected_pixel (data f) (r * (2 * width f + padding f))
                  <$> seqZ 0 (width f)))
  <$> seqZ 0 (height f).

(** The quantisation of one output pixel: red and blue multiples of 8 up to
    248, green a multiple of 4 up to 252, low bits zero, 255 never reached;
    and of a row of pixels. *)
Definition quantized_pixel (r g b : Z) : Prop :=
  (r `mod` 8 = 0 ∧ 0 ≤ r ≤ 248 ∧ Z.land r 7 = 0)
  ∧ (g `mod` 4 = 0 ∧ 0 ≤ g ≤ 252 ∧ Z.land g 3 = 0)
  ∧ (b `mod` 8 = 0 ∧ 0 ≤ b ≤ 248 ∧ Z.land b 7 = 0)
  ∧ r ≠ 255 ∧ g ≠ 255 ∧ b ≠ 255.

Fixpoint quantized565 (line : list Z) : Prop :=
  match line with
  | [] => True
  | r :: g :: b :: rest => quantized_pixel r g b ∧ quantized565 rest
  | _ => False
  end.

(** The rows of a 24-bit frame: row [r] starts at
    [r * (width * 3 + padding)], pixel [x] three bytes further each. *)
Definition bgr24_expected (f : us_frame_s) : list (list Z) :=
  (λ r, concat ((λ x, let b := r * (width f * 3 + padding f) + 3 * x in
                      [byte_at (data f) (b + 2); byte_at (data f) (b + 1); byte_at (data f) b])
                  <$> seqZ 0 (width f)))
  <$> seqZ 0 (height f).

Definition rgb24_expected (f : us_frame_s) : list (list Z) :=
  (λ r, concat ((λ x, let b := r * (width f * 3 + padding f) + 3 * x in
                      [byte_at (data f) b; byte_at (data f) (b + 1); byte_at (data f) (b + 2)])
                  <$> seqZ 0 (width f)))
  <$> seqZ 0 (height f).

(** ** Semi-planar *)

(** The transform of the semi-planar family in the words of the spec:
    [C = Y - 16], chroma bias 128 taken off, coefficients
    298/409/100/208/516, rounding term 128, right shift by 8, clamp. *)
Definition nv_rgb (Y U V : Z) : list Z :=
  let C := Y - 16 in
  let D := U - 128 in
  let E := V - 128 in
  [clamp ((298 * C + 409 * E + 128) ≫ 8);
   clamp ((298 * C - 100 * D - 208 * E + 128) ≫ 8);
   clamp ((298 * C + 516 * D + 128) ≫ 8)].

(** The pixel step that the three converters have in common, given the
    indices [yi] of the luma byte and [ui] of the chroma pair
    ([nv12_pixel_at], [nv16_pixel_at] and [nv24_pixel_at] relate the
    converters to it). *)
Definition nv_pixel_at (inp : list Z) (yi ui : Z) (out : list Z) : option (list Z) :=
  Y ← load inp yi;
  U ← load inp ui;
  V ← load inp (ui + 1);
  out ← store out (yi * 3) (nv_rgb Y U V !!! 0%nat);
  out ← store out (yi * 3 + 1) (nv_rgb Y U V !!! 1%nat);
  store out (yi * 3 + 2) (nv_rgb Y U V !!! 2%nat).

(** The index of the chroma pair read for the pixel in row [i], column [j],
    in each layout. *)
Definition nv12_uv (w h i j : Z) : Z := w * h + ((i ÷ 2) * w + 2 * (j ÷ 2)).
Definition nv16_uv (w h i j : Z) : Z := w * h + i * w + Z.land j (Z.lnot 1).
Definition nv24_uv (w h i j : Z) : Z := w * h + 2 * j + i * w * 2.

(** Pixel [p] (in raster order) of the RGB buffer, and the byte at index [k]
    of the buffer: channel [k mod 3] of pixel [k / 3].  [uv i j] is the
    chroma index of the layout. *)
Definition nv_pixel_rgb (inp : list Z) (uv : Z → Z → Z) (w p : Z) : list Z :=
  nv_rgb (byte_at inp p)
    (byte_at inp (uv (p `div` w) (p `mod` w)))
    (byte_at inp (uv (p `div` w) (p `mod` w) + 1)).

Definition nv_byte (inp : list Z) (uv : Z → Z → Z) (w k : Z) : Z :=
  nv_pixel_rgb inp uv w (k `div` 3) !!! Z.to_nat (k `mod` 3).

(** [fills body lo hi F L]: on any buffer of length [L] the step [body]
    succeeds, keeps the length, leaves [F k] at every index [k] of [lo..hi)
    and touches nothing else. *)
Definition fills (body : list Z → option (list Z)) (lo hi : Z) (F : Z → Z) (L : Z) : Prop :=
  ∀ out, Z.of_nat (length out) = L →
    ∃ out', body out = Some out'
            ∧ Z.of_nat (length out') = L
            ∧ (∀ k, lo ≤ k < hi → load out' k = Some (F k))
            ∧ (∀ k, ¬ (lo ≤ k < hi) → load out' k = load out k).

(** ** Sink and dispatch *)

(** What holds of the sink after the compressor has emitted the bytes [s]
    and, on the way, invoked flush-when-full [n] times: the used part of the
    frame followed by the filled part of the chunk buffer is [s]. *)
Definition sink_inv (d : _jpeg_dest_manager_s) (s : list Z) (n : nat) : Prop :=
  length (buf d) = Z.to_nat JPEG_OUTPUT_BUFFER_SIZE
  ∧ 0 < free_in_buffer d ≤ JPEG_OUTPUT_BUFFER_SIZE
  ∧ next_output_byte d = JPEG_OUTPUT_BUFFER_SIZE - free_in_buffer d
  ∧ used (frame d) = JPEG_OUTPUT_BUFFER_SIZE * Z.of_nat n
  ∧ used (frame d) ≤ Z.of_nat (length (data (frame d)))
  ∧ take (Z.to_nat (used (frame d))) (data (frame d))
      ++ take (Z.to_nat (next_output_byte d)) (buf d) = s.

(** The eight enumerated source formats. *)
Definition supported_formats : list Z :=
  [V4L2_PIX_FMT_YUYV; V4L2_PIX_FMT_UYVY; V4L2_PIX_FMT_RGB565; V4L2_PIX_FMT_NV12;
   V4L2_PIX_FMT_NV16; V4L2_PIX_FMT_BGR24; V4L2_PIX_FMT_RGB24; V4L2_PIX_FMT_NV24].

(** How a call that has selected the feeder [f] ends, [rows] being the rows
    this feeder hands to the compressor: in the undefined read when one of
    the rows is one, and otherwise with a destination frame that is tagged
    as compressed image and whose used bytes are the stream the library
    emits for exactly these rows. *)
Definition fed_by (jpeg_library : Z → Z → Z → list (list Z) → list Z)
    (src : us_frame_s) (quality : Z) (f : feeder) (rows : list (option (list Z)))
    (result : compress_result) : Prop :=
  match mapM id rows with
  | None => result = UndefinedRead f
  | Some rows =>
      let stream := jpeg_library (width src) (height src) quality rows in
      ∃ d, result = Compressed f d
           ∧ format d = V4L2_PIX_FMT_JPEG
           ∧ used d = Z.of_nat (length stream)
           ∧ take (Z.to_nat (used d)) (data d) = stream
  end.

(** ** Vocabulary of the further properties *)


(** A 5-6-5 pixel from its three fields, as the two bytes of the
    little-endian 16-bit value [r5 g6 b5] (red in the top bits). *)
Definition rgb565_le (r5 g6 b5 : Z) : list Z :=
  let v := r5 * 2048 + g6 * 32 + b5 in
  [v `mod` 256; v `div` 256].

(** The rows of a packed 4:2:2 frame of any width, odd ones included, as the
    feeders produce them.  Pixel [x] of row [r] takes its luma from its own
    place, [r * (2 * width + padding) + 2 * x] (one further chroma-first).
    Its chroma comes from the four-byte group that the running phase [z]
    selects: [z] is the parity of the number of pixels before the row, and
    the groups of the row start two bytes early when it is 1. *)
Definition yuyv_rows_any_width (f : us_frame_s) : list (list Z) :=
  (λ r, concat ((λ x,
      let z := (r * width f) `mod` 2 in
      let g := r * (2 * width f + padding f) - 2 * z + 4 * ((z + x) `div` 2) in
      yuv422_rgb (byte_at (data f) (r * (2 * width f + padding f) + 2 * x))
        (byte_at (data f) (g + 1)) (byte_at (data f) (g + 3)))
    <$> seqZ 0 (width f)))
  <$> seqZ 0 (height f).

Definition uyvy_rows_any_width (f : us_frame_s) : list (list Z) :=
  (λ r, concat ((λ x,
      let z := (r * width f) `mod` 2 in
      let g := r * (2 * width f + padding f) - 2 * z + 4 * ((z + x) `div` 2) in
      yuv422_rgb (byte_at (data f) (r * (2 * width f + padding f) + 2 * x + 1))
        (byte_at (data f) g) (byte_at (data f) (g + 2)))
    <$> seqZ 0 (width f)))
  <$> seqZ 0 (height f).

(** * Properties *)

(** ** Buffers and loops *)

Lemma load_in_bounds (m : list Z) (i : Z) :
  0 ≤ i < Z.of_nat (length m) → load m i = Some (byte_at m i).
Proof.
  intros Hi. unfold byte_at, load. rewrite decide_True by lia.
  destruct (lookup_lt_is_Some_2 m (Z.to_nat i)) as [b Hb]; [lia|].
  by rewrite Hb.
Qed.

Lemma seqZ_succ (m : Z) (k : nat) :
  seqZ m (Z.of_nat (S k)) = m :: seqZ (m + 1) (Z.of_nat k).
Proof.
  rewrite seqZ_cons by lia. f_equal. f_equal; lia.
Qed.

Lemma scanline_loop_rows {S : Type} (body : S → option (list Z) * S)
    (st : Z → S) (row : Z → option (list Z)) (k : nat) (r0 : Z) :
  (∀ r, r0 ≤ r < r0 + Z.of_nat k → body (st r) = (row r, st (r + 1))) →
  scanline_loop body k (st r0) = row <$> seqZ r0 (Z.of_nat k).
Proof.
  revert r0. induction k as [|k IH]; intros r0 Hbody; [done|].
  rewrite seqZ_succ. cbn [scanline_loop fmap list_fmap].
  rewrite Hbody by lia. f_equal. apply IH. intros r Hr. apply Hbody. lia.
Qed.

Lemma scanline_loop_length {S : Type} (body : S → option (list Z) * S) (k : nat) (s : S) :
  length (scanline_loop body k s) = k.
Proof.
  revert s. induction k as [|k IH]; intros s; [done|].
  cbn [scanline_loop]. destruct (body s) as [row s']. cbn. by rewrite IH.
Qed.

(** ** Colour math *)

Lemma NORM_COMPONENT_clamp (x : Z) : NORM_COMPONENT x = clamp x.
Proof. unfold NORM_COMPONENT, clamp. repeat case_decide; lia. Qed.

Lemma clamp_range (x : Z) : 0 ≤ clamp x ≤ 255.
Proof. unfold clamp. lia. Qed.

Lemma u8_clamp (x : Z) : u8 (clamp x) = clamp x.
Proof. unfold u8. apply Z.mod_small. pose proof (clamp_range x). lia. Qed.

Lemma shiftr8_floor (x : Z) : x ≫ 8 = x `div` 256.
Proof. by rewrite Z.shiftr_div_pow2. Qed.

Lemma yuv_store_rgb (Y U V : Z) :
  yuv_store (Y ≪ 8) (U - 128) (V - 128) = yuv422_rgb Y U V.
Proof.
  unfold yuv_store, yuv422_rgb, YUV_R, YUV_G, YUV_B.
  rewrite !NORM_COMPONENT_clamp, !u8_clamp, Z.shiftl_mul_pow2 by lia.
  by replace (Y * 2 ^ 8) with (256 * Y) by lia.
Qed.

(** The arithmetic of one pixel never leaves the range of a 32-bit [int]. *)
Lemma yuv_math_fits_int (Y U V : Z) :
  0 ≤ Y ≤ 255 → 0 ≤ U ≤ 255 → 0 ≤ V ≤ 255 →
  let y := Y ≪ 8 in
  let u := U - 128 in
  let v := V - 128 in
  Forall (λ t, - 2 ^ 31 ≤ t < 2 ^ 31)
    [y; 359 * v; y + 359 * v; 88 * u; 183 * v; y - 88 * u - 183 * v; 454 * u; y + 454 * u].
Proof.
  intros HY HU HV. cbn zeta. rewrite Z.shiftl_mul_pow2 by lia.
  change (2 ^ 8) with 256. change (2 ^ 31) with 2147483648.
  repeat (apply Forall_cons; split; [lia|]). apply Forall_nil_2.
Qed.

(** ** Packed 4:2:2 feeders, row by row *)

Lemma seqZ_to_nat (m n : Z) : seqZ m (Z.of_nat (Z.to_nat n)) = seqZ m n.
Proof. unfold seqZ. by rewrite Nat2Z.id. Qed.

Lemma z_step_index (b x : Z) :
  0 ≤ x →
  z_step (b + 4 * (x `div` 2)) (x `mod` 2) = (b + 4 * ((x + 1) `div` 2), (x + 1) `mod` 2).
Proof.
  intros Hx. unfold z_step. case_decide; f_equal; Z.div_mod_to_equations; lia.
Qed.

Lemma yuyv_pixel_index (data : list Z) (b x : Z) :
  0 ≤ b → 0 ≤ x → b + 4 * (x `div` 2) + 4 ≤ Z.of_nat (length data) →
  yuyv_pixel data (b + 4 * (x `div` 2)) (x `mod` 2) = Some (yuyv_expected_pixel data b x).
Proof.
  intros Hb Hx Hlen. unfold yuyv_pixel, yuyv_expected_pixel.
  assert (0 ≤ x `div` 2) by (Z.div_mod_to_equations; lia).
  case_decide as Hz.
  - rewrite !load_in_bounds by lia. cbn. rewrite yuv_store_rgb, Hz.
    repeat (f_equal; try lia).
  - rewrite !load_in_bounds by lia. cbn. rewrite yuv_store_rgb.
    replace (x `mod` 2) with 1 by (Z.div_mod_to_equations; lia).
    repeat (f_equal; try lia).
Qed.

Lemma uyvy_pixel_index (data : list Z) (b x : Z) :
  0 ≤ b → 0 ≤ x → b + 4 * (x `div` 2) + 4 ≤ Z.of_nat (length data) →
  uyvy_pixel data (b + 4 * (x `div` 2)) (x `mod` 2) = Some (uyvy_expected_pixel data b x).
Proof.
  intros Hb Hx Hlen. unfold uyvy_pixel, uyvy_expected_pixel.
  assert (0 ≤ x `div` 2) by (Z.div_mod_to_equations; lia).
  case_decide as Hz.
  - rewrite !load_in_bounds by lia. cbn. rewrite yuv_store_rgb, Hz.
    repeat (f_equal; try lia).
  - rewrite !load_in_bounds by lia. cbn. rewrite yuv_store_rgb.
    replace (x `mod` 2) with 1 by (Z.div_mod_to_equations; lia).
    repeat (f_equal; try lia).
Qed.

Lemma yuyv_line_index (data : list Z) (b : Z) (n : nat) (x0 : Z) :
  0 ≤ b → 0 ≤ x0 →
  (n = 0%nat ∨ b + 4 * ((x0 + Z.of_nat n - 1) `div` 2) + 4 ≤ Z.of_nat (length data)) →
  yuyv_line data n (b + 4 * (x0 `div` 2)) (x0 `mod` 2)
  = (Some (concat (yuyv_expected_pixel data b <$> seqZ x0 (Z.of_nat n))),
     (b + 4 * ((x0 + Z.of_nat n) `div` 2), (x0 + Z.of_nat n) `mod` 2)).
Proof.
  intros Hb. revert x0. induction n as [|n IH]; intros x0 Hx Hlen.
  - cbn. by rewrite Z.add_0_r.
  - rewrite seqZ_succ. cbn [yuyv_line]. rewrite z_step_index by lia.
    assert (Hlast : b + 4 * ((x0 + Z.of_nat (S n) - 1) `div` 2) + 4 ≤ Z.of_nat (length data))
      by (destruct Hlen; [lia|done]).
    rewrite IH; [|lia|].
    + rewrite yuyv_pixel_index by (try lia; Z.div_mod_to_equations; lia).
      cbn. repeat (f_equal; try lia).
    + destruct n; [by left|right].
      replace (x0 + 1 + Z.of_nat (S n) - 1) with (x0 + Z.of_nat (S (S n)) - 1) by lia. done.
Qed.

Lemma uyvy_line_index (data : list Z) (b : Z) (n : nat) (x0 : Z) :
  0 ≤ b → 0 ≤ x0 →
  (n = 0%nat ∨ b + 4 * ((x0 + Z.of_nat n - 1) `div` 2) + 4 ≤ Z.of_nat (length data)) →
  uyvy_line data n (b + 4 * (x0 `div` 2)) (x0 `mod` 2)
  = (Some (concat (uyvy_expected_pixel data b <$> seqZ x0 (Z.of_nat n))),
     (b + 4 * ((x0 + Z.of_nat n) `div` 2), (x0 + Z.of_nat n) `mod` 2)).
Proof.
  intros Hb. revert x0. induction n as [|n IH]; intros x0 Hx Hlen.
  - cbn. by rewrite Z.add_0_r.
  - rewrite seqZ_succ. cbn [uyvy_line]. rewrite z_step_index by lia.
    assert (Hlast : b + 4 * ((x0 + Z.of_nat (S n) - 1) `div` 2) + 4 ≤ Z.of_nat (length data))
      by (destruct Hlen; [lia|done]).
    rewrite IH; [|lia|].
    + rewrite uyvy_pixel_index by (try lia; Z.div_mod_to_equations; lia).
      cbn. repeat (f_equal; try lia).
    + destruct n; [by left|right].
      replace (x0 + 1 + Z.of_nat (S n) - 1) with (x0 + Z.of_nat (S (S n)) - 1) by lia. done.
Qed.

Lemma row_start_bound (r h s : Z) : 0 ≤ r < h → 0 ≤ s → 0 ≤ r * s ∧ r * s + s ≤ h * s.
Proof. intros Hr Hs. nia. Qed.

Lemma yuyv_feeder_rows (f : us_frame_s) :
  0 ≤ width f → Z.even (width f) = true → 0 ≤ padding f →
  height f * (2 * width f + padding f) ≤ Z.of_nat (length (data f)) →
  _jpeg_write_scanlines_yuyv f = Some <$> yuyv_expected f.
Proof.
  intros Hw Hev Hp Hlen. unfold _jpeg_write_scanlines_yuyv, yuyv_expected, us_frame_get_padding.
  rewrite <-list_fmap_compose, <-(seqZ_to_nat 0 (height f)).
  apply (scanline_loop_rows _ (λ r, (r * (2 * width f + padding f), 0))
           (Some ∘ (λ r, concat (yuyv_expected_pixel (data f) (r * (2 * width f + padding f))
                                    <$> seqZ 0 (width f)))) _ 0).
  intros r Hr. cbn beta iota. rewrite Z2Nat.id in Hr by lia.
  apply Z.even_spec in Hev as [m Hm].
  destruct (row_start_bound r (height f) (2 * width f + padding f)) as [Hb0 Hb1]; [lia..|].
  pose proof (yuyv_line_index (data f) (r * (2 * width f + padding f)) (Z.to_nat (width f)) 0)
    as Hline.
  change (0 `div` 2) with 0 in Hline. change (0 `mod` 2) with 0 in Hline.
  rewrite Z.mul_0_r, Z.add_0_r, !Z.add_0_l, Z2Nat.id in Hline by lia.
  rewrite Hline; [|lia|lia|].
  - cbn. f_equal. f_equal; Z.div_mod_to_equations; lia.
  - right. Z.div_mod_to_equations. lia.
Qed.

Lemma uyvy_feeder_rows (f : us_frame_s) :
  0 ≤ width f → Z.even (width f) = true → 0 ≤ padding f →
  height f * (2 * width f + padding f) ≤ Z.of_nat (length (data f)) →
  _jpeg_write_scanlines_uyvy f = Some <$> uyvy_expected f.
Proof.
  intros Hw Hev Hp Hlen. unfold _jpeg_write_scanlines_uyvy, uyvy_expected, us_frame_get_padding.
  rewrite <-list_fmap_compose, <-(seqZ_to_nat 0 (height f)).
  apply (scanline_loop_rows _ (λ r, (r * (2 * width f + padding f), 0))
           (Some ∘ (λ r, concat (uyvy_expected_pixel (data f) (r * (2 * width f + padding f))
                                    <$> seqZ 0 (width f)))) _ 0).
  intros r Hr. cbn beta iota. rewrite Z2Nat.id in Hr by lia.
  apply Z.even_spec in Hev as [m Hm].
  destruct (row_start_bound r (height f) (2 * width f + padding f)) as [Hb0 Hb1]; [lia..|].
  pose proof (uyvy_line_index (data f) (r * (2 * width f + padding f)) (Z.to_nat (width f)) 0)
    as Hline.
  change (0 `div` 2) with 0 in Hline. change (0 `mod` 2) with 0 in Hline.
  rewrite Z.mul_0_r, Z.add_0_r, !Z.add_0_l, Z2Nat.id in Hline by lia.
  rewrite Hline; [|lia|lia|].
  - cbn. f_equal. f_equal; Z.div_mod_to_equations; lia.
  - right. Z.div_mod_to_equations. lia.
Qed.

(** ** Packed 16-bit RGB 5-6-5 *)

(** Masking with [k] ones placed [n] bits up keeps a [k]-bit field in place. *)
Lemma land_field (x n k : Z) :
  0 ≤ n → 0 ≤ k → Z.land x (Z.ones k ≪ n) = ((x ≫ n) `mod` 2 ^ k) * 2 ^ n.
Proof.
  intros Hn Hk. rewrite <-Z.shiftl_mul_pow2, <-Z.land_ones by lia.
  apply Z.bits_inj'. intros i Hi.
  rewrite Z.land_spec, !Z.shiftl_spec, Z.land_spec by lia.
  destruct (decide (i < n)) as [Hlt|Hge].
  - rewrite (Z.testbit_neg_r _ (i - n)) by lia. by rewrite !andb_false_r.
  - rewrite Z.shiftr_spec by lia. by replace (i - n + n) with i by lia.
Qed.

Lemma rgb565_channels (d0 d1 : Z) :
  [u8 (Z.land d1 248); u8 ((Z.land ((d1 ≪ 8) + d0) 2016) ≫ 3); u8 (Z.land d0 31 * 8)]
  = rgb565_rgb d0 d1.
Proof.
  unfold rgb565_rgb, u8.
  change 248 with (Z.ones 5 ≪ 3). change 2016 with (Z.ones 6 ≪ 5).
  change 31 with (Z.ones 5 ≪ 0) at 1.
  rewrite !land_field by lia. rewrite Z.shiftr_0_r, (Z.shiftr_div_pow2 (_ * _)) by lia.
  change (2 ^ 5) with 32. change (2 ^ 6) with 64. change (2 ^ 3) with 8. change (2 ^ 0) with 1.
  set (a := (d1 ≫ 3) `mod` 32). set (g := (((d1 ≪ 8) + d0) ≫ 5) `mod` 64).
  set (c := d0 `mod` 32).
  assert (0 ≤ a < 32) by (apply Z.mod_pos_bound; lia).
  assert (0 ≤ g < 64) by (apply Z.mod_pos_bound; lia).
  assert (0 ≤ c < 32) by (apply Z.mod_pos_bound; lia).
  repeat f_equal; Z.div_mod_to_equations; lia.
Qed.

Lemma rgb565_line_index (data : list Z) (b : Z) (n : nat) (x0 : Z) :
  0 ≤ b + 2 * x0 → b + 2 * (x0 + Z.of_nat n) ≤ Z.of_nat (length data) →
  rgb565_line data n (b + 2 * x0)
  = (Some (concat (rgb565_expected_pixel data b <$> seqZ x0 (Z.of_nat n))),
     b + 2 * (x0 + Z.of_nat n)).
Proof.
  revert x0. induction n as [|n IH]; intros x0 Hlo Hhi.
  - cbn. by rewrite Z.add_0_r.
  - rewrite seqZ_succ. cbn [rgb565_line].
    replace (b + 2 * x0 + 2) with (b + 2 * (x0 + 1)) by lia.
    rewrite IH by lia. unfold rgb565_pixel.
    rewrite !load_in_bounds by lia. cbn [mbind option_bind]. rewrite rgb565_channels.
    unfold rgb565_expected_pixel. cbn [fmap list_fmap concat app].
    repeat (f_equal; try lia).
Qed.

Lemma rgb565_feeder_rows (f : us_frame_s) :
  0 ≤ width f → 0 ≤ padding f →
  height f * (2 * width f + padding f) ≤ Z.of_nat (length (data f)) →
  _jpeg_write_scanlines_rgb565 f = Some <$> rgb565_expected f.
Proof.
  intros Hw Hp Hlen.
  unfold _jpeg_write_scanlines_rgb565, rgb565_expected, us_frame_get_padding.
  rewrite <-list_fmap_compose, <-(seqZ_to_nat 0 (height f)).
  apply (scanline_loop_rows _ (λ r, r * (2 * width f + padding f))
           (Some ∘ (λ r, concat (rgb565_expected_pixel (data f) (r * (2 * width f + padding f))
                                    <$> seqZ 0 (width f)))) _ 0).
  intros r Hr. rewrite Z2Nat.id in Hr by lia.
  destruct (row_start_bound r (height f) (2 * width f + padding f)) as [Hb0 Hb1]; [lia..|].
  pose proof (rgb565_line_index (data f) (r * (2 * width f + padding f)) (Z.to_nat (width f)) 0)
    as Hline.
  rewrite Z.mul_0_r, Z.add_0_r, !Z.add_0_l, Z2Nat.id in Hline by lia.
  rewrite Hline by lia. cbn. f_equal. lia.
Qed.

(** ** Packed 24-bit paths *)

(** The row the compressor reads through a pointer and the row the BGR loop
    builds, when the two buffers hold each pixel with its first and third
    byte exchanged. *)
Lemma read_bytes_bgr24_line (rgb bgr : list Z) (d : Z) (n : nat) (c0 : Z) :
  (∀ c k, c0 ≤ c < c0 + Z.of_nat n → 0 ≤ k < 3 →
     load rgb (d + 3 * c + k) = load bgr (d + 3 * c + (2 - k))) →
  read_bytes rgb (d + 3 * c0) (3 * n) = bgr24_line bgr d n (3 * c0).
Proof.
  revert c0. induction n as [|n IH]; intros c0 Hswap; [done|].
  replace (3 * S n)%nat with (S (S (S (3 * n)))) by lia.
  cbn [read_bytes bgr24_line].
  pose proof (Hswap c0 0 ltac:(lia) ltac:(lia)) as H0.
  pose proof (Hswap c0 1 ltac:(lia) ltac:(lia)) as H1.
  pose proof (Hswap c0 2 ltac:(lia) ltac:(lia)) as H2.
  rewrite Z.add_0_r in H0.
  replace (d + 3 * c0 + 1 + 1) with (d + 3 * c0 + 2) by lia.
  replace (d + 3 * c0 + 2 + 1) with (d + 3 * (c0 + 1)) by lia.
  replace (3 * c0 + 3) with (3 * (c0 + 1)) by lia.
  rewrite IH by (intros c k Hc Hk; apply Hswap; lia).
  rewrite H0, H1, H2.
  replace (d + 3 * c0 + (2 - 0)) with (d + (3 * c0 + 2)) by lia.
  replace (d + 3 * c0 + (2 - 1)) with (d + (3 * c0 + 1)) by lia.
  replace (d + 3 * c0 + (2 - 2)) with (d + 3 * c0) by lia.
  destruct (load bgr (d + (3 * c0 + 2))) as [r|]; cbn; [|done].
  destruct (load bgr (d + (3 * c0 + 1))) as [g|]; cbn.
  - destruct (load bgr (d + 3 * c0)) as [b|]; cbn; [|done].
    by destruct (bgr24_line bgr d n (3 * (c0 + 1))).
  - by destruct (load bgr (d + 3 * c0)).
Qed.

(** ** The packed paths, frame by frame *)

Lemma yuv422_rgb_range (Y U V : Z) : Forall (λ c, 0 ≤ c ≤ 255) (yuv422_rgb Y U V).
Proof. unfold yuv422_rgb. repeat (apply Forall_cons; split; [apply clamp_range|]). done. Qed.

Lemma Forall_rows {A : Type} (P : A → Prop) (pix : Z → Z → list A) (w h : Z) :
  (∀ r x, 0 ≤ r < h → 0 ≤ x < w → Forall P (pix r x)) →
  Forall (Forall P) ((λ r, concat (pix r <$> seqZ 0 w)) <$> seqZ 0 h).
Proof.
  intros Hpix. apply Forall_fmap, Forall_forall. intros r Hr%elem_of_seqZ. cbn.
  apply Forall_concat, Forall_fmap, Forall_forall. intros x Hx%elem_of_seqZ. cbn.
  apply Hpix; lia.
Qed.

(** C3. On a well-formed packed 4:2:2 frame (even width, buffer holding
    [height] rows of [2 * width + padding] bytes) both feeders hand over, for
    every row and every pixel, exactly the triple
    [clamp ((256 Y + 359 (V - 128)) >> 8)],
    [clamp ((256 Y - 88 (U - 128) - 183 (V - 128)) >> 8)],
    [clamp ((256 Y + 454 (U - 128)) >> 8)]
    of the pixel's luma byte and its group's chroma bytes, [>>] being the
    flooring arithmetic shift; no black-level offset, and every channel ends
    in 0..255. *)
Theorem packed422_transform_exact (f : us_frame_s) :
  0 ≤ width f → Z.even (width f) = true → 0 ≤ padding f →
  height f * (2 * width f + padding f) ≤ Z.of_nat (length (data f)) →
  _jpeg_write_scanlines_yuyv f = Some <$> yuyv_expected f
  ∧ _jpeg_write_scanlines_uyvy f = Some <$> uyvy_expected f
  ∧ Forall (Forall (λ c, 0 ≤ c ≤ 255)) (yuyv_expected f)
  ∧ Forall (Forall (λ c, 0 ≤ c ≤ 255)) (uyvy_expected f)
  ∧ (∀ x, x ≫ 8 = x `div` 256).
Proof.
  intros Hw Hev Hp Hlen. split_and!.
  - by apply yuyv_feeder_rows.
  - by apply uyvy_feeder_rows.
  - apply Forall_rows. intros. apply yuv422_rgb_range.
  - apply Forall_rows. intros. apply yuv422_rgb_range.
  - apply shiftr8_floor.
Qed.

Lemma packed422_transform_exact_witness :
  let f := Frame 2 2 V4L2_PIX_FMT_YUYV 1 [0; 255; 81; 255; 7; 200; 16; 255; 240; 9] 0 in
  _jpeg_write_scanlines_yuyv f
    = [Some [178; 0; 225; 255; 0; 255]; Some [255; 158; 1; 255; 213; 56]]
  ∧ _jpeg_write_scanlines_uyvy f
    = [Some [189; 255; 28; 189; 255; 28]; Some [194; 0; 143; 255; 124; 255]].
Proof.
  intros f.
  destruct (packed422_transform_exact f) as (Hy & Hu & _);
    [cbn; lia | reflexivity | cbn; lia | cbn; lia |].
  rewrite Hy, Hu. split; reflexivity.
Defined.

(** C3 as stated, for every pixel, fails on a frame of odd width, all reads
    inside the buffer.  Pixel (1, 0) of this 3x2 frame with one padding byte
    per row has luma 145 and the chroma bytes 34 and 110 in its group, which
    give (119, 190, 0); the feeder hands over (13, 255, 0), computed with the
    padding byte 0 before the row as U and the group's U byte 34 as V. *)
Lemma packed422_transform_odd_width :
  let f := Frame 3 2 V4L2_PIX_FMT_YUYV 1
             [16; 90; 235; 240; 81; 54; 0; 145; 34; 41; 110; 210; 200; 7] 0 in
  _jpeg_write_scanlines_yuyv f
  = [Some [173; 0; 0; 255; 168; 167; 104; 94; 0]; Some [13; 255; 0; 141; 0; 9; 255; 164; 178]]
  ∧ yuyv_expected_pixel (data f) (1 * (2 * width f + padding f)) 0 = [119; 190; 0]
  ∧ _jpeg_write_scanlines_yuyv f ≠ Some <$> yuyv_expected f.
Proof. cbv zeta. split_and!; [reflexivity|reflexivity|by vm_compute]. Qed.

Lemma rows_ext {A : Type} (pix pix' : Z → Z → list A) (w h : Z) :
  (∀ r x, 0 ≤ r < h → 0 ≤ x < w → pix r x = pix' r x) →
  (λ r, concat (pix r <$> seqZ 0 w)) <$> seqZ 0 h
  = (λ r, concat (pix' r <$> seqZ 0 w)) <$> seqZ 0 h.
Proof.
  intros Hpix. apply Forall_fmap_ext, Forall_forall. intros r Hr%elem_of_seqZ. cbn.
  f_equal. apply Forall_fmap_ext, Forall_forall. intros x Hx%elem_of_seqZ.
  apply Hpix; lia.
Qed.

Lemma byte_at_range (m : list Z) (i : Z) :
  Forall (λ b, 0 ≤ b ≤ 255) m → 0 ≤ byte_at m i ≤ 255.
Proof.
  intros Hm. unfold byte_at, load. case_decide; [|cbn; lia].
  destruct (m !! Z.to_nat i) as [b|] eqn:Hb; [|cbn; lia].
  exact (Forall_lookup_1 _ _ _ _ Hm Hb).
Qed.

Lemma yuv422_rgb_neutral (Y : Z) : 0 ≤ Y ≤ 255 → yuv422_rgb Y 128 128 = [Y; Y; Y].
Proof.
  intros HY. unfold yuv422_rgb. rewrite !shiftr8_floor.
  replace ((256 * Y + 359 * (128 - 128)) `div` 256) with Y by (Z.div_mod_to_equations; lia).
  replace ((256 * Y - 88 * (128 - 128) - 183 * (128 - 128)) `div` 256) with Y
    by (Z.div_mod_to_equations; lia).
  replace ((256 * Y + 454 * (128 - 128)) `div` 256) with Y by (Z.div_mod_to_equations; lia).
  unfold clamp. repeat f_equal; lia.
Qed.

(** C9. On a well-formed packed 4:2:2 frame of even width, of bytes whose
    chroma bytes are all 128, every pixel comes out as (Y, Y, Y), Y its own
    luma byte; stated for the luma-first layout on [fy] and the chroma-first
    layout on [fu]. *)
Theorem packed422_neutral_chroma_gray (fy fu : us_frame_s) :
  0 ≤ width fy → Z.even (width fy) = true → 0 ≤ padding fy →
  height fy * (2 * width fy + padding fy) ≤ Z.of_nat (length (data fy)) →
  0 ≤ width fu → Z.even (width fu) = true → 0 ≤ padding fu →
  height fu * (2 * width fu + padding fu) ≤ Z.of_nat (length (data fu)) →
  Forall (λ b, 0 ≤ b ≤ 255) (data fy) →
  Forall (λ b, 0 ≤ b ≤ 255) (data fu) →
  (∀ r x, 0 ≤ r < height fy → 0 ≤ x < width fy →
     let g := r * (2 * width fy + padding fy) + 4 * (x `div` 2) in
     byte_at (data fy) (g + 1) = 128 ∧ byte_at (data fy) (g + 3) = 128) →
  (∀ r x, 0 ≤ r < height fu → 0 ≤ x < width fu →
     let g := r * (2 * width fu + padding fu) + 4 * (x `div` 2) in
     byte_at (data fu) g = 128 ∧ byte_at (data fu) (g + 2) = 128) →
  _jpeg_write_scanlines_yuyv fy
  = Some <$> ((λ r, concat ((λ x,
       let Y := byte_at (data fy)
                  (r * (2 * width fy + padding fy) + 4 * (x `div` 2) + 2 * (x `mod` 2)) in
       [Y; Y; Y]) <$> seqZ 0 (width fy))) <$> seqZ 0 (height fy))
  ∧ _jpeg_write_scanlines_uyvy fu
  = Some <$> ((λ r, concat ((λ x,
       let Y := byte_at (data fu)
                  (r * (2 * width fu + padding fu) + 4 * (x `div` 2) + 2 * (x `mod` 2) + 1) in
       [Y; Y; Y]) <$> seqZ 0 (width fu))) <$> seqZ 0 (height fu)).
Proof.
  intros Hwy Hevy Hpy Hleny Hwu Hevu Hpu Hlenu Hby Hbu Hny Hnu. split.
  - rewrite yuyv_feeder_rows by done. f_equal. apply rows_ext. intros r x Hr Hx.
    destruct (Hny r x Hr Hx) as [HU HV]. unfold yuyv_expected_pixel. cbn zeta in *.
    rewrite HU, HV. by apply yuv422_rgb_neutral, byte_at_range.
  - rewrite uyvy_feeder_rows by done. f_equal. apply rows_ext. intros r x Hr Hx.
    destruct (Hnu r x Hr Hx) as [HU HV]. unfold uyvy_expected_pixel. cbn zeta in *.
    rewrite HU, HV. by apply yuv422_rgb_neutral, byte_at_range.
Qed.

Lemma packed422_neutral_chroma_gray_witness :
  let fy := Frame 2 2 V4L2_PIX_FMT_YUYV 1 [0; 128; 255; 128; 77; 16; 128; 235; 128; 78] 0 in
  let fu := Frame 2 2 V4L2_PIX_FMT_UYVY 1 [128; 1; 128; 254; 77; 128; 100; 128; 200; 78] 0 in
  _jpeg_write_scanlines_yuyv fy
    = [Some [0; 0; 0; 255; 255; 255]; Some [16; 16; 16; 235; 235; 235]]
  ∧ _jpeg_write_scanlines_uyvy fu
    = [Some [1; 1; 1; 254; 254; 254]; Some [100; 100; 100; 200; 200; 200]].
Proof.
  intros fy fu.
  apply (packed422_neutral_chroma_gray fy fu); cbn;
    try lia; try reflexivity;
    try (repeat (apply Forall_cons; split; [lia|]); apply Forall_nil_2);
    intros r x Hr Hx;
    (assert (r = 0 ∨ r = 1) as [->| ->] by lia);
    (assert (x = 0 ∨ x = 1) as [->| ->] by lia); split; reflexivity.
Defined.

(** C9 as stated, for every input, fails on a frame of odd width, all reads
    inside the buffer.  In these 3x2 frames with one padding byte per row
    every chroma byte is 128, and yet the last pixel of row 0 and the first
    pixel of row 1 do not come out gray: the feeders take a luma byte of the
    other row or the padding byte 255 for their chroma. *)
Lemma packed422_neutral_chroma_odd_width :
  let fy := Frame 3 2 V4L2_PIX_FMT_YUYV 1
              [16; 128; 81; 128; 200; 128; 255; 130; 128; 90; 128; 54; 128; 255] 0 in
  let fu := Frame 3 2 V4L2_PIX_FMT_UYVY 1
              [128; 16; 128; 81; 128; 200; 255; 128; 130; 128; 90; 128; 54; 255] 0 in
  let gray := [Some [16; 16; 16; 81; 81; 81; 200; 200; 200];
               Some [130; 130; 130; 90; 90; 90; 54; 54; 54]] in
  Forall (λ i, byte_at (data fy) i = 128) [1; 3; 5; 8; 10; 12]
  ∧ Forall (λ i, byte_at (data fu) i = 128) [0; 2; 4; 7; 9; 11]
  ∧ _jpeg_write_scanlines_yuyv fy
    = [Some [16; 16; 16; 81; 81; 81; 202; 198; 200];
       Some [130; 86; 255; 90; 90; 90; 54; 54; 54]]
  ∧ _jpeg_write_scanlines_uyvy fu
    = [Some [16; 16; 16; 81; 81; 81; 255; 109; 200];
       Some [130; 105; 255; 90; 90; 90; 54; 54; 54]]
  ∧ _jpeg_write_scanlines_yuyv fy ≠ gray
  ∧ _jpeg_write_scanlines_uyvy fu ≠ gray.
Proof.
  cbv zeta. split_and!; try reflexivity; try (by vm_compute).
  - repeat constructor.
  - repeat constructor.
Qed.

Lemma fmap_const_seqZ {A : Type} (c : A) (m n : Z) :
  (λ _, c) <$> seqZ m n = replicate (Z.to_nat n) c.
Proof.
  rewrite <-(seqZ_to_nat m n). generalize (Z.to_nat n) as k. intros k. revert m.
  induction k as [|k IH]; intros m; [done|].
  rewrite seqZ_succ. cbn. by rewrite IH.
Qed.

(** C2, as the code has it. On a well-formed RGB565 frame whose pixels are
    all 0xFF 0xFF, every pixel of every row comes out as (248, 252, 248): the
    five or six bits of a channel are moved to the top of its byte and the
    low bits stay zero. *)
Theorem rgb565_all_bits_set (f : us_frame_s) :
  0 ≤ width f → 0 ≤ padding f →
  height f * (2 * width f + padding f) ≤ Z.of_nat (length (data f)) →
  (∀ r x, 0 ≤ r < height f → 0 ≤ x < width f →
     let d := r * (2 * width f + padding f) + 2 * x in
     byte_at (data f) d = 255 ∧ byte_at (data f) (d + 1) = 255) →
  _jpeg_write_scanlines_rgb565 f
  = replicate (Z.to_nat (height f))
      (Some (concat (replicate (Z.to_nat (width f)) [248; 252; 248]))).
Proof.
  intros Hw Hp Hlen Hones. rewrite rgb565_feeder_rows by done. unfold rgb565_expected.
  rewrite (rows_ext _ (λ _ _, [248; 252; 248])).
  - by rewrite !fmap_const_seqZ, fmap_replicate.
  - intros r x Hr Hx. destruct (Hones r x Hr Hx) as [H0 H1]. cbn zeta in *.
    unfold rgb565_expected_pixel. by rewrite H0, H1.
Qed.

Lemma rgb565_all_bits_set_witness :
  _jpeg_write_scanlines_rgb565
    (Frame 2 2 V4L2_PIX_FMT_RGB565 1 [255; 255; 255; 255; 0; 255; 255; 255; 255; 0] 0)
  = [Some [248; 252; 248; 248; 252; 248]; Some [248; 252; 248; 248; 252; 248]].
Proof.
  apply (rgb565_all_bits_set
           (Frame 2 2 V4L2_PIX_FMT_RGB565 1 [255; 255; 255; 255; 0; 255; 255; 255; 255; 0] 0));
    cbn; try lia.
  intros r x Hr Hx.
  (assert (r = 0 ∨ r = 1) as [->| ->] by lia);
  (assert (x = 0 ∨ x = 1) as [->| ->] by lia); split; reflexivity.
Defined.

(** C2 as stated fails: one all-ones pixel does not come out white. *)
Lemma rgb565_all_bits_set_not_white :
  let f := Frame 1 1 V4L2_PIX_FMT_RGB565 0 [255; 255] 0 in
  _jpeg_write_scanlines_rgb565 f = [Some [248; 252; 248]]
  ∧ _jpeg_write_scanlines_rgb565 f ≠ [Some [255; 255; 255]].
Proof. split; [reflexivity|discriminate]. Qed.

Lemma rgb565_rgb_quantized (d0 d1 : Z) :
  ∃ r g b, rgb565_rgb d0 d1 = [r; g; b] ∧ quantized_pixel r g b.
Proof.
  unfold rgb565_rgb. do 3 eexists. split; [done|].
  set (a := (d1 ≫ 3) `mod` 32). set (g := (((d1 ≪ 8) + d0) ≫ 5) `mod` 64).
  set (c := d0 `mod` 32).
  assert (0 ≤ a < 32) by (apply Z.mod_pos_bound; lia).
  assert (0 ≤ g < 64) by (apply Z.mod_pos_bound; lia).
  assert (0 ≤ c < 32) by (apply Z.mod_pos_bound; lia).
  unfold quantized_pixel.
  change 7 with (Z.ones 3). change 3 with (Z.ones 2) at 2.
  rewrite !Z.land_ones by lia. change (2 ^ 3) with 8. change (2 ^ 2) with 4.
  split_and!; try lia; Z.div_mod_to_equations; lia.
Qed.

Lemma quantized565_concat (pix : Z → list Z) (l : list Z) :
  (∀ x, ∃ r g b, pix x = [r; g; b] ∧ quantized_pixel r g b) →
  quantized565 (concat (pix <$> l)) ∧ length (concat (pix <$> l)) = (3 * length l)%nat.
Proof.
  intros Hpix. induction l as [|x l [IHq IHl]]; [done|].
  destruct (Hpix x) as (r & g & b & Hx & Hq). cbn. rewrite Hx. cbn. split; [done|]. lia.
Qed.

(** C10. On a well-formed RGB565 frame every row handed to the compressor is
    a sequence of [width] triples whose red and blue are multiples of 8 in
    0..248 and whose green is a multiple of 4 in 0..252, the low three (two)
    bits being zero; no channel is 255. *)
Theorem rgb565_output_quantized (f : us_frame_s) :
  0 ≤ width f → 0 ≤ padding f →
  height f * (2 * width f + padding f) ≤ Z.of_nat (length (data f)) →
  ∃ rows, _jpeg_write_scanlines_rgb565 f = Some <$> rows
          ∧ length rows = Z.to_nat (height f)
          ∧ Forall (λ line, length line = Z.to_nat (3 * width f) ∧ quantized565 line) rows.
Proof.
  intros Hw Hp Hlen. exists (rgb565_expected f). split; [by apply rgb565_feeder_rows|].
  unfold rgb565_expected. split; [by rewrite length_fmap, length_seqZ|].
  apply Forall_fmap, Forall_forall. intros r _. cbn.
  destruct (quantized565_concat (rgb565_expected_pixel (data f) (r * (2 * width f + padding f)))
              (seqZ 0 (width f))) as [Hq Hl].
  - intros x. apply rgb565_rgb_quantized.
  - split; [|done]. rewrite Hl, length_seqZ. lia.
Qed.

Lemma rgb565_output_quantized_witness :
  ∃ rows,
    _jpeg_write_scanlines_rgb565
      (Frame 2 1 V4L2_PIX_FMT_RGB565 3 [255; 255; 31; 248; 9; 9; 9] 0) = Some <$> rows
    ∧ length rows = 1%nat
    ∧ Forall (λ line, length line = 6%nat ∧ quantized565 line) rows.
Proof.
  apply (rgb565_output_quantized
           (Frame 2 1 V4L2_PIX_FMT_RGB565 3 [255; 255; 31; 248; 9; 9; 9] 0)); cbn; lia.
Defined.

(** C8. Two frames of the same geometry whose buffers hold every logical
    pixel with its first and third byte exchanged (padding bytes are free):
    the BGR24 feeder on the one and the RGB24 feeder on the other hand the
    compressor the same rows. *)
Theorem bgr24_rgb24_byte_swapped (fb fr : us_frame_s) :
  width fr = width fb → height fr = height fb → padding fr = padding fb →
  (∀ r x k, 0 ≤ r < height fb → 0 ≤ x < width fb → 0 ≤ k < 3 →
     let d := r * (width fb * 3 + padding fb) in
     load (data fr) (d + 3 * x + k) = load (data fb) (d + 3 * x + (2 - k))) →
  _jpeg_write_scanlines_bgr24 fb = _jpeg_write_scanlines_rgb24 fr.
Proof.
  intros Hw Hh Hp Hswap.
  unfold _jpeg_write_scanlines_bgr24, _jpeg_write_scanlines_rgb24, us_frame_get_padding.
  rewrite Hw, Hh, Hp.
  set (s := width fb * 3 + padding fb).
  set (row := λ r, bgr24_line (data fb) (r * s) (Z.to_nat (width fb)) 0).
  transitivity (row <$> seqZ 0 (Z.of_nat (Z.to_nat (height fb)))).
  - apply (scanline_loop_rows _ (λ r, r * s) row _ 0).
    intros r Hr. unfold row. f_equal. lia.
  - symmetry. apply (scanline_loop_rows _ (λ r, r * s) row _ 0).
    intros r Hr. unfold row. f_equal; [|lia].
    replace (Z.to_nat (width fb * 3)) with (3 * Z.to_nat (width fb))%nat by lia.
    pose proof (read_bytes_bgr24_line (data fr) (data fb) (r * s) (Z.to_nat (width fb)) 0)
      as Hrow.
    rewrite Z.mul_0_r, Z.add_0_r in Hrow. apply Hrow.
    intros c k Hc Hk. apply (Hswap r c k); lia.
Qed.

Lemma bgr24_rgb24_byte_swapped_witness :
  let fb := Frame 2 2 V4L2_PIX_FMT_BGR24 1 [1; 2; 3; 4; 5; 6; 90; 7; 8; 9; 10; 11; 12; 91] 0 in
  let fr := Frame 2 2 V4L2_PIX_FMT_RGB24 1 [3; 2; 1; 6; 5; 4; 70; 9; 8; 7; 12; 11; 10; 71] 0 in
  _jpeg_write_scanlines_bgr24 fb = _jpeg_write_scanlines_rgb24 fr
  ∧ _jpeg_write_scanlines_rgb24 fr = [Some [3; 2; 1; 6; 5; 4]; Some [9; 8; 7; 12; 11; 10]].
Proof.
  intros fb fr. split; [|reflexivity].
  apply (bgr24_rgb24_byte_swapped fb fr); try reflexivity.
  intros r x k Hr Hx Hk. cbn in Hr, Hx.
  (assert (r = 0 ∨ r = 1) as [->| ->] by lia);
  (assert (x = 0 ∨ x = 1) as [->| ->] by lia);
  (assert (k = 0 ∨ k = 1 ∨ k = 2) as [->|[->| ->]] by lia); reflexivity.
Defined.

(** ** Semi-planar converters *)

Lemma load_store (m m' : list Z) (i v k : Z) :
  store m i v = Some m' →
  length m' = length m ∧ load m' k = if decide (k = i) then Some v else load m k.
Proof.
  unfold store, load. intros Hst. case_decide as Hi; [|done].
  injection Hst as <-. split; [apply length_insert|].
  destruct (decide (k = i)) as [->|Hk].
  - rewrite decide_True by lia. apply list_lookup_insert_eq. lia.
  - case_decide; [|done]. apply list_lookup_insert_ne. lia.
Qed.

Lemma store_in_bounds (m : list Z) (i v : Z) :
  0 ≤ i < Z.of_nat (length m) → is_Some (store m i v).
Proof. intros Hi. unfold store. by rewrite decide_True. Qed.

Lemma fills_for_loop (body : Z → list Z → option (list Z)) (lo : Z → Z)
    (F : Z → Z) (L : Z) (n : nat) (k0 : Z) :
  (∀ k, k0 ≤ k < k0 + Z.of_nat n → lo k ≤ lo (k + 1)) →
  (∀ k, k0 ≤ k < k0 + Z.of_nat n → fills (body k) (lo k) (lo (k + 1)) F L) →
  fills (for_loop body n k0) (lo k0) (lo (k0 + Z.of_nat n)) F L.
Proof.
  revert k0. induction n as [|n IH]; intros k0 Hmono Hbody out Hout.
  - exists out. rewrite Z.add_0_r. split_and!; [done|done| |done]. intros k Hk. lia.
  - destruct (Hbody k0 ltac:(lia) out Hout) as (out1 & Hrun1 & Hlen1 & Hin1 & Hout1).
    destruct (IH (k0 + 1) ltac:(intros; apply Hmono; lia) ltac:(intros; apply Hbody; lia)
                out1 Hlen1) as (out2 & Hrun2 & Hlen2 & Hin2 & Hout2).
    replace (k0 + 1 + Z.of_nat n) with (k0 + Z.of_nat (S n)) in * by lia.
    exists out2. cbn [for_loop]. rewrite Hrun1. cbn. split_and!; [done|done| |].
    + intros k Hk. destruct (decide (lo (k0 + 1) ≤ k)) as [Hhi|Hlo].
      * apply Hin2. lia.
      * rewrite Hout2 by lia. apply Hin1. lia.
    + intros k Hk.
      assert (lo k0 ≤ lo (k0 + 1)) by (apply Hmono; lia).
      assert (lo (k0 + 1) ≤ lo (k0 + Z.of_nat (S n))).
      { clear -Hmono. induction n as [|n IHn].
        - by replace (k0 + Z.of_nat 1) with (k0 + 1) by lia.
        - etrans; [apply IHn; intros; apply Hmono; lia|].
          replace (k0 + Z.of_nat (S (S n))) with (k0 + Z.of_nat (S n) + 1) by lia.
          apply Hmono. lia. }
      rewrite Hout2 by lia. apply Hout1. lia.
Qed.

(** A buffer filled over its whole length is determined. *)
Lemma filled_buffer (out : list Z) (F : Z → Z) (L : Z) :
  Z.of_nat (length out) = L →
  (∀ k, 0 ≤ k < L → load out k = Some (F k)) →
  out = F <$> seqZ 0 L.
Proof.
  intros Hlen Hload. apply list_eq. intros i. rewrite list_lookup_fmap.
  destruct (decide (Z.of_nat i < L)) as [Hi|Hi].
  - specialize (Hload (Z.of_nat i) ltac:(lia)). unfold load in Hload.
    rewrite decide_True, Nat2Z.id in Hload by lia. rewrite Hload.
    rewrite (lookup_seqZ_lt 0 L i) by lia. cbn. by rewrite Z.add_0_l.
  - rewrite (lookup_ge_None_2 out) by lia.
    by rewrite lookup_seqZ_ge by lia.
Qed.

Lemma fmap_seqZ_triples {A : Type} (F : Z → A) (n : nat) (m : Z) :
  F <$> seqZ (3 * m) (Z.of_nat (3 * n))
  = concat ((λ p, [F (3 * p); F (3 * p + 1); F (3 * p + 2)]) <$> seqZ m (Z.of_nat n)).
Proof.
  revert m. induction n as [|n IH]; intros m; [done|].
  replace (3 * S n)%nat with (S (S (S (3 * n)))) by lia.
  rewrite !seqZ_succ. cbn [fmap list_fmap concat app].
  replace (3 * m + 1 + 1) with (3 * m + 2) by lia.
  replace (3 * m + 2 + 1) with (3 * (m + 1)) by lia.
  by rewrite IH.
Qed.

Lemma nv_clamp (x : Z) :
  u8 (if decide (x < 0) then 0 else if decide (x > 255) then 255 else x) = clamp x.
Proof. rewrite <-u8_clamp. f_equal. unfold clamp. repeat case_decide; lia. Qed.

Local Ltac nv_pixel_same :=
  intros; unfold nv_pixel_at;
  repeat match goal with
         | |- context [load ?m ?i] => destruct (load m i); cbn [mbind option_bind]; [|done]
         end;
  unfold nv_rgb; cbn [lookup_total list_lookup_total]; by rewrite <-!nv_clamp.

Lemma nv12_pixel_at (inp : list Z) (width height i j : Z) (out : list Z) :
  nv12_pixel inp width height i j out
  = nv_pixel_at inp (i * width + j) (width * height + ((i ÷ 2) * width + 2 * (j ÷ 2))) out.
Proof. unfold nv12_pixel. nv_pixel_same. Qed.

Lemma nv16_pixel_at (inp : list Z) (width height i j : Z) (out : list Z) :
  nv16_pixel inp width height i j out
  = nv_pixel_at inp (i * width + j) (width * height + i * width + Z.land j (Z.lnot 1)) out.
Proof. unfold nv16_pixel. nv_pixel_same. Qed.

Lemma nv24_pixel_at (inp : list Z) (width height i j : Z) (out : list Z) :
  nv24_pixel inp width height i j out
  = nv_pixel_at inp (i * width + j) (width * height + 2 * j + i * width * 2) out.
Proof. unfold nv24_pixel. nv_pixel_same. Qed.

Lemma nv_pixel_at_fills (inp : list Z) (yi ui : Z) (F : Z → Z) (L : Z) :
  0 ≤ yi < Z.of_nat (length inp) →
  0 ≤ ui → ui + 1 < Z.of_nat (length inp) →
  yi * 3 + 3 ≤ L →
  (∀ c : nat, (c < 3)%nat →
     F (yi * 3 + Z.of_nat c)
     = nv_rgb (byte_at inp yi) (byte_at inp ui) (byte_at inp (ui + 1)) !!! c) →
  fills (nv_pixel_at inp yi ui) (yi * 3) (yi * 3 + 3) F L.
Proof.
  intros Hyi Hui0 Hui1 HL HF out Hout. unfold nv_pixel_at.
  rewrite !load_in_bounds by lia. cbn [mbind option_bind].
  set (px := nv_rgb _ _ _) in *.
  destruct (store_in_bounds out (yi * 3) (px !!! 0%nat)) as [o1 H1]; [lia|].
  destruct (load_store _ _ _ _ 0 H1) as [Hl1 _].
  destruct (store_in_bounds o1 (yi * 3 + 1) (px !!! 1%nat)) as [o2 H2]; [lia|].
  destruct (load_store _ _ _ _ 0 H2) as [Hl2 _].
  destruct (store_in_bounds o2 (yi * 3 + 2) (px !!! 2%nat)) as [o3 H3]; [lia|].
  destruct (load_store _ _ _ _ 0 H3) as [Hl3 _].
  rewrite H1. cbn [mbind option_bind]. rewrite H2. cbn [mbind option_bind].
  exists o3. split; [done|]. split; [lia|].
  assert (Hall : ∀ k, load o3 k =
    if decide (k = yi * 3 + 2) then Some (px !!! 2%nat)
    else if decide (k = yi * 3 + 1) then Some (px !!! 1%nat)
    else if decide (k = yi * 3) then Some (px !!! 0%nat) else load out k).
  { intros k.
    rewrite (proj2 (load_store _ _ _ _ k H3)), (proj2 (load_store _ _ _ _ k H2)),
      (proj2 (load_store _ _ _ _ k H1)). done. }
  split; intros k Hk; rewrite Hall.
  - assert (k = yi * 3 ∨ k = yi * 3 + 1 ∨ k = yi * 3 + 2) as [->|[->| ->]] by lia.
    + rewrite !decide_False, decide_True by lia. f_equal. rewrite <-(HF 0%nat) by lia.
      f_equal. lia.
    + rewrite decide_False, decide_True by lia. f_equal. by rewrite <-(HF 1%nat) by lia.
    + rewrite decide_True by lia. f_equal. by rewrite <-(HF 2%nat) by lia.
  - by rewrite !decide_False by lia.
Qed.

Lemma pixel_index (i j w h : Z) :
  0 ≤ i < h → 0 ≤ j < w →
  0 ≤ i * w + j < w * h ∧ (i * w + j) `div` w = i ∧ (i * w + j) `mod` w = j.
Proof.
  intros Hi Hj. split; [nia|].
  split; [symmetry; apply (Z.div_unique _ _ _ j)|symmetry; apply (Z.mod_unique _ _ i)]; lia.
Qed.

Section NvLoops.

Variables (inp : list Z) (pixel : Z → Z → list Z → option (list Z)).
Variables (uv : Z → Z → Z) (w h : Z).
Hypothesis pixel_at : ∀ i j o, pixel i j o = nv_pixel_at inp (i * w + j) (uv i j) o.
Hypothesis width_nonneg : 0 ≤ w.
Hypothesis height_nonneg : 0 ≤ h.
Hypothesis luma_in_bounds : w * h ≤ Z.of_nat (length inp).
Hypothesis chroma_in_bounds :
  ∀ i j, 0 ≤ i < h → 0 ≤ j < w → 0 ≤ uv i j ∧ uv i j + 1 < Z.of_nat (length inp).

Lemma nv_row_fills (i : Z) :
  0 ≤ i < h →
  fills (for_loop (λ j, pixel i j) (Z.to_nat w) 0)
    (i * w * 3) ((i + 1) * w * 3) (nv_byte inp uv w) (w * h * 3).
Proof using All.
  intros Hi.
  pose proof (fills_for_loop (λ j, pixel i j) (λ j, (i * w + j) * 3) (nv_byte inp uv w)
                (w * h * 3) (Z.to_nat w) 0) as Hloop.
  cbn beta in Hloop. rewrite Z.add_0_l, Z.add_0_r, Z2Nat.id in Hloop by lia.
  replace ((i + 1) * w * 3) with ((i * w + w) * 3) by lia.
  apply Hloop; [intros; lia|]. intros j Hj o Ho. rewrite pixel_at.
  destruct (pixel_index i j w h) as (Hp & Hdiv & Hmod); [lia..|].
  replace ((i * w + (j + 1)) * 3) with ((i * w + j) * 3 + 3) by lia.
  destruct (chroma_in_bounds i j) as [Hu0 Hu1]; [lia..|].
  apply nv_pixel_at_fills; [lia..| |done].
  intros c Hc. unfold nv_byte, nv_pixel_rgb.
  replace (((i * w + j) * 3 + Z.of_nat c) `div` 3) with (i * w + j)
    by (Z.div_mod_to_equations; lia).
  replace (((i * w + j) * 3 + Z.of_nat c) `mod` 3) with (Z.of_nat c)
    by (Z.div_mod_to_equations; lia).
  by rewrite Hdiv, Hmod, Nat2Z.id.
Qed.

Lemma nv_loops_fill (out : list Z) :
  Z.of_nat (length out) = w * h * 3 →
  ∃ out', for_loop (λ i, for_loop (λ j, pixel i j) (Z.to_nat w) 0) (Z.to_nat h) 0 out
          = Some out'
          ∧ Z.of_nat (length out') = w * h * 3
          ∧ ∀ k, 0 ≤ k < w * h * 3 → load out' k = Some (nv_byte inp uv w k).
Proof using All.
  intros Hout.
  pose proof (fills_for_loop (λ i, for_loop (λ j, pixel i j) (Z.to_nat w) 0)
                (λ i, i * w * 3) (nv_byte inp uv w) (w * h * 3) (Z.to_nat h) 0) as Hloops.
  cbn beta in Hloops. rewrite Z.add_0_l, Z2Nat.id in Hloops by lia.
  destruct (Hloops ltac:(intros; lia) ltac:(intros; apply nv_row_fills; lia) out Hout)
    as (out' & Hrun & Hlen & Hin & _).
  exists out'. split_and!; [done|done|]. intros k Hk. apply Hin. lia.
Qed.

(** The same, as the whole buffer in raster order. *)
Lemma nv_loops_filled (out : list Z) :
  Z.of_nat (length out) = w * h * 3 →
  for_loop (λ i, for_loop (λ j, pixel i j) (Z.to_nat w) 0) (Z.to_nat h) 0 out
  = Some (concat (nv_pixel_rgb inp uv w <$> seqZ 0 (w * h))).
Proof using All.
  intros Hout. destruct (nv_loops_fill out Hout) as (out' & -> & Hlen & Hin).
  f_equal. rewrite (filled_buffer out' (nv_byte inp uv w) (w * h * 3)) by done.
  replace (w * h * 3) with (Z.of_nat (3 * Z.to_nat (w * h))) by nia.
  change 0 with (3 * 0) at 1. rewrite fmap_seqZ_triples, Z2Nat.id by nia.
  f_equal. apply Forall_fmap_ext, Forall_forall. intros p _. unfold nv_byte.
  replace ((3 * p) `div` 3) with p by (Z.div_mod_to_equations; lia).
  replace ((3 * p + 1) `div` 3) with p by (Z.div_mod_to_equations; lia).
  replace ((3 * p + 2) `div` 3) with p by (Z.div_mod_to_equations; lia).
  replace ((3 * p) `mod` 3) with 0 by (Z.div_mod_to_equations; lia).
  replace ((3 * p + 1) `mod` 3) with 1 by (Z.div_mod_to_equations; lia).
  replace ((3 * p + 2) `mod` 3) with 2 by (Z.div_mod_to_equations; lia).
  done.
Qed.

End NvLoops.

Lemma land_lnot_1 (j : Z) : Z.land j (Z.lnot 1) = 2 * (j `div` 2).
Proof.
  rewrite <-Z.ldiff_land. change 1 with (Z.ones 1).
  rewrite Z.ldiff_ones_r, Z.shiftl_mul_pow2, Z.shiftr_div_pow2 by lia.
  change (2 ^ 1) with 2. lia.
Qed.

Lemma nv12_uv_in_bounds (w h i j len : Z) :
  Z.even w = true → w * h + w * ((h + 1) `div` 2) ≤ len →
  0 ≤ i < h → 0 ≤ j < w →
  nv12_uv w h i j = w * h + ((i `div` 2) * w + 2 * (j `div` 2))
  ∧ w * h ≤ nv12_uv w h i j ∧ nv12_uv w h i j + 1 < len.
Proof.
  intros [m ->]%Z.even_spec Hlen Hi Hj. unfold nv12_uv.
  rewrite !Z.quot_div_nonneg by lia.
  assert (0 ≤ i `div` 2 ∧ i `div` 2 + 1 ≤ (h + 1) `div` 2) as [Ha0 Ha1]
    by (Z.div_mod_to_equations; lia).
  assert (0 ≤ 2 * (j `div` 2) ∧ 2 * (j `div` 2) + 2 ≤ 2 * m) as [Hb0 Hb1]
    by (Z.div_mod_to_equations; lia).
  split; [done|].
  assert ((i `div` 2 + 1) * (2 * m) ≤ (h + 1) `div` 2 * (2 * m))
    by (apply Z.mul_le_mono_nonneg_r; lia).
  nia.
Qed.

Lemma nv16_uv_in_bounds (w h i j len : Z) :
  Z.even w = true → 2 * (w * h) ≤ len →
  0 ≤ i < h → 0 ≤ j < w →
  nv16_uv w h i j = w * h + i * w + 2 * (j `div` 2)
  ∧ w * h ≤ nv16_uv w h i j ∧ nv16_uv w h i j + 1 < len.
Proof.
  intros [m ->]%Z.even_spec Hlen Hi Hj. unfold nv16_uv. rewrite land_lnot_1.
  assert (0 ≤ 2 * (j `div` 2) ∧ 2 * (j `div` 2) + 2 ≤ 2 * m) as [Hb0 Hb1]
    by (Z.div_mod_to_equations; lia).
  split; [done|]. nia.
Qed.

Lemma nv24_uv_in_bounds (w h i j len : Z) :
  3 * (w * h) ≤ len →
  0 ≤ i < h → 0 ≤ j < w →
  w * h ≤ nv24_uv w h i j ∧ nv24_uv w h i j + 1 < len.
Proof. intros Hlen Hi Hj. unfold nv24_uv. nia. Qed.

(** C4. On an NV12 frame of even width whose buffer holds the luma plane and
    the half-height chroma plane, the converter succeeds and leaves, for the
    pixel at ([row], [col]), at index [(row * width + col) * 3] of the RGB
    buffer, the clamped triple computed from its luma byte and from the
    chroma pair at offset [(row / 2) * width + 2 * (col / 2)] past the luma
    plane. *)
Theorem nv12_conversion_exact (inp out : list Z) (w h : Z) :
  0 ≤ w → Z.even w = true → 0 ≤ h →
  Z.of_nat (length out) = w * h * 3 →
  w * h + w * ((h + 1) `div` 2) ≤ Z.of_nat (length inp) →
  ∃ out', _nv12_to_rgb24 inp out w h = Some out'
    ∧ length out' = length out
    ∧ ∀ row col, 0 ≤ row < h → 0 ≤ col < w →
        let uv_index := (row `div` 2) * w + 2 * (col `div` 2) in
        let Y := byte_at inp (row * w + col) in
        let U := byte_at inp (w * h + uv_index) in
        let V := byte_at inp (w * h + uv_index + 1) in
        let C := Y - 16 in
        let D := U - 128 in
        let E := V - 128 in
        load out' ((row * w + col) * 3) = Some (clamp ((298 * C + 409 * E + 128) ≫ 8))
        ∧ load out' ((row * w + col) * 3 + 1)
          = Some (clamp ((298 * C - 100 * D - 208 * E + 128) ≫ 8))
        ∧ load out' ((row * w + col) * 3 + 2) = Some (clamp ((298 * C + 516 * D + 128) ≫ 8)).
Proof.
  intros Hw Hev Hh Hout Hlen.
  assert (0 ≤ w * ((h + 1) `div` 2)) by (apply Z.mul_nonneg_nonneg; [|Z.div_mod_to_equations]; lia).
  destruct (nv_loops_fill inp (nv12_pixel inp w h) (nv12_uv w h) w h) with (out := out)
    as (out' & Hrun & Hlen' & Hin); try done.
  { intros. apply nv12_pixel_at. }
  { lia. }
  { intros i j Hi Hj.
    destruct (nv12_uv_in_bounds w h i j (Z.of_nat (length inp))) as (_ & ? & ?); try done.
    split; [nia|done]. }
  exists out'. split_and!; [done|lia|].
  intros row col Hrow Hcol. cbn zeta.
  destruct (pixel_index row col w h) as (Hp & Hdiv & Hmod); [done..|].
  destruct (nv12_uv_in_bounds w h row col (Z.of_nat (length inp))) as (Huv & _); try done.
  pose proof (Hin ((row * w + col) * 3) ltac:(lia)) as H0.
  pose proof (Hin ((row * w + col) * 3 + 1) ltac:(lia)) as H1.
  pose proof (Hin ((row * w + col) * 3 + 2) ltac:(lia)) as H2.
  unfold nv_byte, nv_pixel_rgb in H0, H1, H2.
  replace (((row * w + col) * 3) `div` 3) with (row * w + col) in H0
    by (Z.div_mod_to_equations; lia).
  replace (((row * w + col) * 3 + 1) `div` 3) with (row * w + col) in H1
    by (Z.div_mod_to_equations; lia).
  replace (((row * w + col) * 3 + 2) `div` 3) with (row * w + col) in H2
    by (Z.div_mod_to_equations; lia).
  replace (((row * w + col) * 3) `mod` 3) with 0 in H0 by (Z.div_mod_to_equations; lia).
  replace (((row * w + col) * 3 + 1) `mod` 3) with 1 in H1 by (Z.div_mod_to_equations; lia).
  replace (((row * w + col) * 3 + 2) `mod` 3) with 2 in H2 by (Z.div_mod_to_equations; lia).
  rewrite Hdiv, Hmod, Huv in H0, H1, H2. done.
Qed.

Lemma nv12_conversion_exact_witness :
  ∃ out', _nv12_to_rgb24 [16; 235; 81; 145; 90; 240] (replicate 12 0) 2 2 = Some out'
    ∧ out' = [179; 0; 0; 255; 179; 178; 255; 0; 0; 255; 74; 74].
Proof.
  destruct (nv12_conversion_exact [16; 235; 81; 145; 90; 240] (replicate 12 0) 2 2)
    as (out' & Hrun & Hlen & _); [lia|reflexivity|lia|reflexivity|by vm_compute|].
  exists out'. split; [exact Hrun|].
  vm_compute in Hrun. by injection Hrun as <-.
Defined.









(** ** Streaming sink: the invariant of a run *)

Lemma sink_inv_init (fresh : list Z) (mgr : _jpeg_dest_manager_s) (dest : us_frame_s) :
  sink_inv (_jpeg_init_destination fresh (_jpeg_set_dest_frame mgr dest)) [] 0.
Proof.
  unfold sink_inv. cbn. unfold JPEG_OUTPUT_BUFFER_SIZE.
  split_and!; try lia; try done.
  rewrite length_app, length_take, length_replicate. lia.
Qed.

Lemma sink_inv_emit_byte (d : _jpeg_dest_manager_s) (s : list Z) (n : nat) (val : Z) :
  sink_inv d s n →
  sink_inv (jpeg_emit_byte d val).1 (s ++ [val]) (n + (jpeg_emit_byte d val).2).
Proof.
  unfold sink_inv, JPEG_OUTPUT_BUFFER_SIZE.
  intros (Hbuf & Hfree & Hnext & Hused & Hcap & Hcontent).
  assert (Hfill : take (Z.to_nat (next_output_byte d + 1))
                    (<[Z.to_nat (next_output_byte d) := val]> (buf d))
                  = take (Z.to_nat (next_output_byte d)) (buf d) ++ [val]).
  { replace (Z.to_nat (next_output_byte d + 1)) with (S (Z.to_nat (next_output_byte d)))
      by lia.
    rewrite (take_S_r _ _ val) by (apply list_lookup_insert_eq; lia).
    by rewrite take_insert_ge by lia. }
  unfold jpeg_emit_byte. cbn [free_in_buffer next_output_byte buf frame].
  case_decide as Hfull; cbn [fst snd _jpeg_empty_output_buffer free_in_buffer
    next_output_byte buf frame us_frame_append_data used data].
  - unfold JPEG_OUTPUT_BUFFER_SIZE.
    assert (Hwhole : take (Z.to_nat 4096) (<[Z.to_nat (next_output_byte d) := val]> (buf d))
                     = take (Z.to_nat (next_output_byte d)) (buf d) ++ [val]).
    { rewrite <-Hfill. f_equal. lia. }
    rewrite length_insert, length_app, length_take. split_and!; try lia.
    + rewrite Hwhole, length_app, length_take. cbn. lia.
    + rewrite take_0, app_nil_r, take_ge.
      * by rewrite Hwhole, app_assoc, Hcontent.
      * rewrite length_app, length_take, Hwhole, length_app, length_take. cbn. lia.
  - rewrite length_insert. split_and!; try lia.
    by rewrite Hfill, app_assoc, Hcontent.
Qed.

Lemma sink_inv_emit (stream : list Z) (d : _jpeg_dest_manager_s) (s : list Z) (n : nat) :
  sink_inv d s n →
  sink_inv (jpeg_emit d stream).1 (s ++ stream) (n + (jpeg_emit d stream).2).
Proof.
  revert d s n. induction stream as [|val rest IH]; intros d s n Hinv.
  - cbn. by rewrite app_nil_r, Nat.add_0_r.
  - cbn [jpeg_emit]. pose proof (sink_inv_emit_byte d s n val Hinv) as Hstep.
    destruct (jpeg_emit_byte d val) as [d' k]. cbn [fst snd] in Hstep.
    specialize (IH d' (s ++ [val]) (n + k)%nat Hstep).
    destruct (jpeg_emit d' rest) as [d'' m]. cbn [fst snd] in *.
    rewrite <-app_assoc in IH. by rewrite Nat.add_assoc.
Qed.

Lemma jpeg_emit_app (d : _jpeg_dest_manager_s) (s1 s2 : list Z) :
  jpeg_emit d (s1 ++ s2)
  = ((jpeg_emit (jpeg_emit d s1).1 s2).1,
     ((jpeg_emit d s1).2 + (jpeg_emit (jpeg_emit d s1).1 s2).2)%nat).
Proof.
  revert d. induction s1 as [|val s1 IH]; intros d.
  - cbn. by destruct (jpeg_emit d s2).
  - cbn [jpeg_emit app]. destruct (jpeg_emit_byte d val) as [d' k].
    rewrite IH. destruct (jpeg_emit d' s1) as [d1 n1]. cbn [fst snd].
    destruct (jpeg_emit d1 s2) as [d2 n2]. cbn [fst snd]. f_equal. lia.
Qed.

Lemma sink_inv_term (d : _jpeg_dest_manager_s) (s : list Z) (n : nat) :
  sink_inv d s n →
  let d' := _jpeg_term_destination d in
  used (frame d') = used (frame d) + (4096 - free_in_buffer d)
  ∧ data (frame d') = s
  ∧ used (frame d') = Z.of_nat (length s).
Proof.
  intros (Hbuf & Hfree & Hnext & Hused & Hcap & Hcontent).
  unfold JPEG_OUTPUT_BUFFER_SIZE in *.
  unfold _jpeg_term_destination, JPEG_OUTPUT_BUFFER_SIZE, size_t.
  cbn [frame us_frame_append_data used data].
  rewrite Z.mod_small by lia. rewrite <-Hnext, Hcontent. split_and!; [done..|].
  rewrite <-Hcontent, length_app, !length_take. lia.
Qed.

(** C5. One conversion call, the compressor emitting [stream]: the used
    length is 0 after the sink is set up; it never decreases while the stream
    is emitted nor at finalize, and what is used is always a prefix of the
    stream; before finalize it is 4096 per flush-when-full invocation;
    after finalize it is that plus 4096 minus the free space of the chunk
    buffer, which is the length of the stream, and the used bytes of the
    frame are the stream itself. *)
Theorem sink_used_length (fresh : list Z) (mgr : _jpeg_dest_manager_s)
    (dest : us_frame_s) (stream : list Z) :
  let d0 := _jpeg_init_destination fresh (_jpeg_set_dest_frame mgr dest) in
  let d1 := (jpeg_emit d0 stream).1 in
  let flushes := (jpeg_emit d0 stream).2 in
  let d2 := _jpeg_term_destination d1 in
  used (frame d0) = 0
  ∧ (∀ s1 s2 s3, stream = s1 ++ s2 ++ s3 →
       let da := (jpeg_emit d0 s1).1 in
       let db := (jpeg_emit d0 (s1 ++ s2)).1 in
       used (frame da) ≤ used (frame db) ≤ used (frame d2)
       ∧ take (Z.to_nat (used (frame da))) (data (frame da))
         = take (Z.to_nat (used (frame da))) stream)
  ∧ used (frame d1) = 4096 * Z.of_nat flushes
  ∧ used (frame d2) = 4096 * Z.of_nat flushes + (4096 - free_in_buffer d1)
  ∧ used (frame d2) = Z.of_nat (length stream)
  ∧ take (Z.to_nat (used (frame d2))) (data (frame d2)) = stream.
Proof.
  intros d0 d1 flushes d2.
  pose proof (sink_inv_init fresh mgr dest) as Hinit. fold d0 in Hinit.
  pose proof (sink_inv_emit stream d0 [] 0 Hinit) as Hend.
  fold d1 flushes in Hend. cbn [app Nat.add] in Hend.
  destruct (sink_inv_term d1 stream flushes Hend) as (Hused2 & Hdata2 & Hlen2).
  fold d2 in Hused2, Hdata2, Hlen2.
  split_and!.
  - done.
  - intros s1 s2 s3 -> da db.
    pose proof (sink_inv_emit s1 d0 [] 0 Hinit) as Ha. fold da in Ha.
    pose proof (sink_inv_emit (s1 ++ s2) d0 [] 0 Hinit) as Hb. fold db in Hb.
    cbn [app Nat.add] in Ha, Hb.
    destruct Ha as (_ & _ & _ & Hua & Hca & Hsa).
    destruct Hb as (_ & _ & _ & Hub & _ & _).
    destruct Hend as (_ & Hfree & _ & Hu1 & _ & _).
    unfold JPEG_OUTPUT_BUFFER_SIZE in *.
    assert (Hn : ((jpeg_emit d0 s1).2 ≤ (jpeg_emit d0 (s1 ++ s2)).2
                  ∧ (jpeg_emit d0 (s1 ++ s2)).2 ≤ flushes)%nat).
    { subst flushes. rewrite (app_assoc s1 s2 s3), (jpeg_emit_app d0 (s1 ++ s2) s3).
      rewrite (jpeg_emit_app d0 s1 s2). cbn [snd]. lia. }
    split; [lia|].
    clearbody da db d1. rewrite <-Hsa, <-app_assoc.
    symmetry. apply take_app_length'. rewrite length_take. lia.
  - by destruct Hend as (_ & _ & _ & Hu1 & _).
  - destruct Hend as (_ & _ & _ & Hu1 & _). unfold JPEG_OUTPUT_BUFFER_SIZE in *. lia.
  - done.
  - rewrite Hdata2, Hlen2, Nat2Z.id. by rewrite take_ge.
Qed.

(** ** Format dispatch *)

Lemma switch_format_supported (fmt : Z) :
  is_Some (switch_format fmt) ↔ fmt ∈ supported_formats.
Proof.
  unfold switch_format, supported_formats. rewrite !elem_of_cons, elem_of_nil.
  repeat case_decide; split; intros Hfmt; eauto 12; try (by destruct Hfmt);
    by destruct Hfmt as [?|[?|[?|[?|[?|[?|[?|[?|[]]]]]]]]].
Qed.

Lemma jpeg_emit_format (stream : list Z) (d : _jpeg_dest_manager_s) :
  format (frame (jpeg_emit d stream).1) = format (frame d).
Proof.
  revert d. induction stream as [|val rest IH]; intros d; [done|].
  cbn [jpeg_emit]. destruct (jpeg_emit_byte d val) as [d' k] eqn:Hstep.
  specialize (IH d'). destruct (jpeg_emit d' rest) as [d'' m]. cbn [fst] in *.
  rewrite IH. unfold jpeg_emit_byte in Hstep. cbn in Hstep.
  case_decide; by injection Hstep as <- _.
Qed.

Lemma sink_keeps_format (d : _jpeg_dest_manager_s) (stream : list Z) :
  format (frame (_jpeg_term_destination (jpeg_emit d stream).1)) = format (frame d).
Proof. cbn. apply jpeg_emit_format. Qed.

Lemma write_and_finish_fed (jpeg_library : Z → Z → Z → list (list Z) → list Z)
    (alloc_small : list Z) (src dest : us_frame_s) (quality : Z) (f : feeder) :
  let begun := us_frame_encoding_begin src dest V4L2_PIX_FMT_JPEG in
  let mgr := _jpeg_init_destination alloc_small
               (_jpeg_set_dest_frame (DestMgr 0 0 [] begun) begun) in
  fed_by jpeg_library src quality f (run_feeder f src)
    (write_and_finish jpeg_library f mgr src quality).
Proof.
  intros begun mgr. unfold fed_by, write_and_finish.
  destruct (mapM id (run_feeder f src)) as [rows|]; [|done].
  cbn zeta. eexists. split; [done|].
  set (stream := jpeg_library _ _ _ _).
  pose proof (sink_inv_emit stream mgr [] 0 (sink_inv_init _ _ _)) as Hend.
  cbn [app Nat.add] in Hend.
  destruct (sink_inv_term _ _ _ Hend) as (_ & Hdata & Hlen).
  split_and!; [|done|].
  - apply (sink_keeps_format mgr stream).
  - rewrite Hdata, Hlen, Nat2Z.id. by rewrite take_ge.
Qed.

(** C7. The entry point on a source frame of each of the eight formats runs
    the feeder of that format, and no other: whatever the library, the call
    ends in the undefined read of that feeder when one of its rows is one,
    and otherwise with the destination holding the stream that the library
    emits for the rows of that feeder on the source frame.  It ends in the
    failed assertion exactly when the format tag is none of the eight, which
    are pairwise distinct. *)
Theorem compress_dispatch (jpeg_library : Z → Z → Z → list (list Z) → list Z)
    (alloc_small : list Z) (src dest : us_frame_s) (quality : Z) :
  let result := us_cpu_encoder_compress jpeg_library alloc_small src dest quality in
  let fed := fed_by jpeg_library src quality in
  (if decide (format src = V4L2_PIX_FMT_YUYV)
   then fed Feed_yuyv (_jpeg_write_scanlines_yuyv src) result
   else if decide (format src = V4L2_PIX_FMT_UYVY)
   then fed Feed_uyvy (_jpeg_write_scanlines_uyvy src) result
   else if decide (format src = V4L2_PIX_FMT_RGB565)
   then fed Feed_rgb565 (_jpeg_write_scanlines_rgb565 src) result
   else if decide (format src = V4L2_PIX_FMT_NV12)
   then fed Feed_nv12 (_jpeg_write_scanlines_nv12 src) result
   else if decide (format src = V4L2_PIX_FMT_NV16)
   then fed Feed_nv16 (_jpeg_write_scanlines_nv16 src) result
   else if decide (format src = V4L2_PIX_FMT_BGR24)
   then fed Feed_bgr24 (_jpeg_write_scanlines_bgr24 src) result
   else if decide (format src = V4L2_PIX_FMT_RGB24)
   then fed Feed_rgb24 (_jpeg_write_scanlines_rgb24 src) result
   else if decide (format src = V4L2_PIX_FMT_NV24)
   then fed Feed_nv24 (_jpeg_write_scanlines_nv24 src) result
   else result = AssertionFailed)
  ∧ (result = AssertionFailed ↔ format src ∉ supported_formats)
  ∧ NoDup supported_formats.
Proof.
  intros result fed.
  pose proof (write_and_finish_fed jpeg_library alloc_small src dest quality) as Hfed.
  cbv zeta in Hfed.
  assert (Hresult : result
            = match switch_format (format src) with
              | Some f => write_and_finish jpeg_library f
                            (_jpeg_init_destination alloc_small
                               (_jpeg_set_dest_frame
                                  (DestMgr 0 0 []
                                     (us_frame_encoding_begin src dest V4L2_PIX_FMT_JPEG))
                                  (us_frame_encoding_begin src dest V4L2_PIX_FMT_JPEG)))
                            src quality
              | None => AssertionFailed
              end) by done.
  split_and!.
  - rewrite Hresult. unfold switch_format, fed.
    repeat case_decide; first [done | apply Hfed].
  - rewrite Hresult, <-switch_format_supported.
    destruct (switch_format (format src)) as [f|].
    + split; [|intros []; eauto].
      intros Hfail. specialize (Hfed f). rewrite Hfail in Hfed. unfold fed_by in Hfed.
      destruct (mapM id (run_feeder f src)); [by destruct Hfed as (? & ? & _)|done].
    + split; [|done]. by intros _ [? ?].
  - apply NoDup_ListNoDup. repeat (constructor; [cbn; intros H; intuition discriminate|]).
    constructor.
Qed.

Lemma compress_dispatch_witness :
  let library (w h q : Z) (rows : list (list Z)) := w :: h :: q :: concat rows in
  let src := Frame 1 2 V4L2_PIX_FMT_BGR24 1 [1; 2; 3; 90; 4; 5; 6; 91] 8 in
  ∃ d, us_cpu_encoder_compress library [] src (Frame 0 0 0 0 [7; 7; 7] 3) 80
       = Compressed Feed_bgr24 d
       ∧ format d = V4L2_PIX_FMT_JPEG
       ∧ used d = 9
       ∧ take (Z.to_nat (used d)) (data d) = [1; 2; 80; 3; 2; 1; 6; 5; 4].
Proof.
  intros library src.
  exact (proj1 (compress_dispatch library [] src (Frame 0 0 0 0 [7; 7; 7] 3) 80)).
Defined.

(** X17. After a call on a supported format whose rows are all defined, the
    destination frame is tagged as compressed image and its used bytes are
    the stream of the library, whatever the destination held before. *)
Lemma compress_destination (jpeg_library : Z → Z → Z → list (list Z) → list Z)
    (alloc_small : list Z) (src dest : us_frame_s) (quality : Z)
    (f : feeder) (rows : list (list Z)) :
  switch_format (format src) = Some f →
  mapM id (run_feeder f src) = Some rows →
  ∃ d, us_cpu_encoder_compress jpeg_library alloc_small src dest quality = Compressed f d
       ∧ format d = V4L2_PIX_FMT_JPEG
       ∧ used d = Z.of_nat (length (jpeg_library (width src) (height src) quality rows))
       ∧ take (Z.to_nat (used d)) (data d)
         = jpeg_library (width src) (height src) quality rows.
Proof.
  intros Hswitch Hrows. unfold us_cpu_encoder_compress, write_and_finish.
  rewrite Hswitch, Hrows. eexists. split; [done|].
  set (stream := jpeg_library _ _ _ _).
  set (d0 := _jpeg_init_destination _ _).
  pose proof (sink_inv_emit stream d0 [] 0 (sink_inv_init _ _ _)) as Hend.
  cbn [app Nat.add] in Hend.
  destruct (sink_inv_term _ _ _ Hend) as (_ & Hdata & Hlen).
  split_and!; [|done|].
  - apply (sink_keeps_format d0 stream).
  - rewrite Hdata, Hlen, Nat2Z.id. by rewrite take_ge.
Qed.

Lemma compress_destination_witness :
  ∃ d, us_cpu_encoder_compress (λ w h q rows, w :: h :: q :: concat rows) []
         (Frame 1 2 V4L2_PIX_FMT_RGB24 1 [1; 2; 3; 90; 4; 5; 6; 91] 8)
         (Frame 0 0 0 0 [7; 7; 7] 3) 80
       = Compressed Feed_rgb24 d
       ∧ format d = V4L2_PIX_FMT_JPEG
       ∧ used d = 9
       ∧ take (Z.to_nat (used d)) (data d) = [1; 2; 80; 1; 2; 3; 4; 5; 6].
Proof.
  apply (compress_destination (λ w h q rows, w :: h :: q :: concat rows) []
           (Frame 1 2 V4L2_PIX_FMT_RGB24 1 [1; 2; 3; 90; 4; 5; 6; 91] 8)
           (Frame 0 0 0 0 [7; 7; 7] 3) 80 Feed_rgb24 [[1; 2; 3]; [4; 5; 6]]);
    reflexivity.
Defined.

(** ** Padding *)

(** *** The packed feeders skip the padding *)

Lemma read_bytes_in_bounds (m : list Z) (n : nat) (d : Z) :
  0 ≤ d → d + Z.of_nat n ≤ Z.of_nat (length m) →
  read_bytes m d n = Some (byte_at m <$> seqZ d (Z.of_nat n)).
Proof.
  revert d. induction n as [|n IH]; intros d Hd Hlen; [done|].
  rewrite seqZ_succ. cbn [read_bytes]. rewrite load_in_bounds, IH by lia. done.
Qed.

Lemma bgr24_line_in_bounds (m : list Z) (d : Z) (n : nat) (c0 : Z) :
  0 ≤ d + 3 * c0 → d + 3 * (c0 + Z.of_nat n) ≤ Z.of_nat (length m) →
  bgr24_line m d n (3 * c0)
  = Some (concat ((λ c, [byte_at m (d + 3 * c + 2); byte_at m (d + 3 * c + 1);
                         byte_at m (d + 3 * c)]) <$> seqZ c0 (Z.of_nat n))).
Proof.
  revert c0. induction n as [|n IH]; intros c0 Hd Hlen; [done|].
  rewrite seqZ_succ. cbn [bgr24_line].
  replace (3 * c0 + 3) with (3 * (c0 + 1)) by lia.
  rewrite !load_in_bounds, IH by lia. cbn. repeat (f_equal; try lia).
Qed.

Lemma bgr24_feeder_rows (f : us_frame_s) :
  0 ≤ width f → 0 ≤ padding f →
  height f * (width f * 3 + padding f) ≤ Z.of_nat (length (data f)) →
  _jpeg_write_scanlines_bgr24 f = Some <$> bgr24_expected f.
Proof.
  intros Hw Hp Hlen.
  unfold _jpeg_write_scanlines_bgr24, bgr24_expected, us_frame_get_padding.
  rewrite <-list_fmap_compose, <-(seqZ_to_nat 0 (height f)).
  apply (scanline_loop_rows _ (λ r, r * (width f * 3 + padding f))
           (Some ∘ (λ r, concat ((λ x, let b := r * (width f * 3 + padding f) + 3 * x in
                        [byte_at (data f) (b + 2); byte_at (data f) (b + 1);
                         byte_at (data f) b]) <$> seqZ 0 (width f)))) _ 0).
  intros r Hr. rewrite Z2Nat.id in Hr by lia.
  destruct (row_start_bound r (height f) (width f * 3 + padding f)) as [Hb0 Hb1]; [lia..|].
  change 0 with (3 * 0) at 1.
  rewrite bgr24_line_in_bounds, Z2Nat.id by lia. cbn. f_equal. lia.
Qed.

Lemma rgb24_feeder_rows (f : us_frame_s) :
  0 ≤ width f → 0 ≤ padding f →
  height f * (width f * 3 + padding f) ≤ Z.of_nat (length (data f)) →
  _jpeg_write_scanlines_rgb24 f = Some <$> rgb24_expected f.
Proof.
  intros Hw Hp Hlen.
  unfold _jpeg_write_scanlines_rgb24, rgb24_expected, us_frame_get_padding.
  rewrite <-list_fmap_compose, <-(seqZ_to_nat 0 (height f)).
  apply (scanline_loop_rows _ (λ r, r * (width f * 3 + padding f))
           (Some ∘ (λ r, concat ((λ x, let b := r * (width f * 3 + padding f) + 3 * x in
                        [byte_at (data f) b; byte_at (data f) (b + 1);
                         byte_at (data f) (b + 2)]) <$> seqZ 0 (width f)))) _ 0).
  intros r Hr. rewrite Z2Nat.id in Hr by lia.
  destruct (row_start_bound r (height f) (width f * 3 + padding f)) as [Hb0 Hb1]; [lia..|].
  rewrite read_bytes_in_bounds by lia. cbn. f_equal; [|lia]. f_equal.
  replace (Z.to_nat (width f * 3)) with (3 * Z.to_nat (width f))%nat by lia.
  set (b := r * (width f * 3 + padding f)).
  replace (seqZ b (Z.of_nat (3 * Z.to_nat (width f))))
    with (Z.add b <$> seqZ (3 * 0) (Z.of_nat (3 * Z.to_nat (width f))))
    by (rewrite fmap_add_seqZ; f_equal; lia).
  rewrite <-list_fmap_compose, fmap_seqZ_triples, Z2Nat.id by lia.
  f_equal. apply Forall_fmap_ext, Forall_forall. intros x _. cbn.
  repeat (f_equal; try lia).
Qed.

(** X13. Two packed 4:2:2 frames of one geometry (even width) with the same
    logical bytes in every row, whatever their paddings and padding bytes,
    are fed alike, as YUYV and as UYVY. *)
Lemma packed422_padding_isolation (f1 f2 : us_frame_s) :
  width f2 = width f1 → height f2 = height f1 →
  0 ≤ width f1 → Z.even (width f1) = true → 0 ≤ padding f1 → 0 ≤ padding f2 →
  height f1 * (2 * width f1 + padding f1) ≤ Z.of_nat (length (data f1)) →
  height f1 * (2 * width f1 + padding f2) ≤ Z.of_nat (length (data f2)) →
  (∀ r k, 0 ≤ r < height f1 → 0 ≤ k < 2 * width f1 →
     byte_at (data f1) (r * (2 * width f1 + padding f1) + k)
     = byte_at (data f2) (r * (2 * width f1 + padding f2) + k)) →
  _jpeg_write_scanlines_yuyv f1 = _jpeg_write_scanlines_yuyv f2
  ∧ _jpeg_write_scanlines_uyvy f1 = _jpeg_write_scanlines_uyvy f2.
Proof.
  intros Hw Hh Hw0 Hev Hp1 Hp2 Hl1 Hl2 Hbytes.
  pose proof Hev as [m Hm]%Z.even_spec.
  rewrite !yuyv_feeder_rows, !uyvy_feeder_rows by (rewrite ?Hw, ?Hh; done).
  unfold yuyv_expected, uyvy_expected. rewrite Hw, Hh.
  split; f_equal; apply rows_ext; intros r x Hr Hx;
    unfold yuyv_expected_pixel, uyvy_expected_pixel; cbn zeta;
    rewrite <-!Z.add_assoc, !Hbytes by (try done; Z.div_mod_to_equations; lia); done.
Qed.

Lemma packed422_padding_isolation_witness :
  let tight := [16; 90; 235; 240; 81; 54; 145; 34] in
  let padded := [16; 90; 235; 240; 7; 200; 81; 54; 145; 34; 255; 0] in
  _jpeg_write_scanlines_yuyv (Frame 2 2 V4L2_PIX_FMT_YUYV 0 tight 0)
  = _jpeg_write_scanlines_yuyv (Frame 2 2 V4L2_PIX_FMT_YUYV 2 padded 0)
  ∧ _jpeg_write_scanlines_uyvy (Frame 2 2 V4L2_PIX_FMT_UYVY 0 tight 0)
    = _jpeg_write_scanlines_uyvy (Frame 2 2 V4L2_PIX_FMT_UYVY 2 padded 0).
Proof.
  intros tight padded.
  pose proof (packed422_padding_isolation (Frame 2 2 V4L2_PIX_FMT_YUYV 0 tight 0)
                (Frame 2 2 V4L2_PIX_FMT_YUYV 2 padded 0)) as Hyuyv.
  pose proof (packed422_padding_isolation (Frame 2 2 V4L2_PIX_FMT_UYVY 0 tight 0)
                (Frame 2 2 V4L2_PIX_FMT_UYVY 2 padded 0)) as Huyvy.
  assert (Hbytes : ∀ r k, 0 ≤ r < 2 → 0 ≤ k < 2 * 2 →
            byte_at tight (r * (2 * 2 + 0) + k) = byte_at padded (r * (2 * 2 + 2) + k)).
  { intros r k Hr Hk.
    (assert (r = 0 ∨ r = 1) as [->| ->] by lia);
    (assert (k = 0 ∨ k = 1 ∨ k = 2 ∨ k = 3) as [->|[->|[->| ->]]] by lia); reflexivity. }
  split.
  - apply Hyuyv; solve [reflexivity | cbn; lia | exact Hbytes].
  - apply Huyvy; solve [reflexivity | cbn; lia | exact Hbytes].
Defined.

(** X14. Two RGB565 frames of one geometry with the same logical bytes in
    every row, whatever their paddings and padding bytes, are fed alike. *)
Lemma rgb565_padding_isolation (f1 f2 : us_frame_s) :
  width f2 = width f1 → height f2 = height f1 →
  0 ≤ width f1 → 0 ≤ padding f1 → 0 ≤ padding f2 →
  height f1 * (2 * width f1 + padding f1) ≤ Z.of_nat (length (data f1)) →
  height f1 * (2 * width f1 + padding f2) ≤ Z.of_nat (length (data f2)) →
  (∀ r k, 0 ≤ r < height f1 → 0 ≤ k < 2 * width f1 →
     byte_at (data f1) (r * (2 * width f1 + padding f1) + k)
     = byte_at (data f2) (r * (2 * width f1 + padding f2) + k)) →
  _jpeg_write_scanlines_rgb565 f1 = _jpeg_write_scanlines_rgb565 f2.
Proof.
  intros Hw Hh Hw0 Hp1 Hp2 Hl1 Hl2 Hbytes.
  rewrite !rgb565_feeder_rows by (rewrite ?Hw, ?Hh; done).
  unfold rgb565_expected. rewrite Hw, Hh.
  f_equal; apply rows_ext; intros r x Hr Hx. unfold rgb565_expected_pixel.
  rewrite <-!Z.add_assoc, !Hbytes by (try done; lia). done.
Qed.

Lemma rgb565_padding_isolation_witness :
  _jpeg_write_scanlines_rgb565
    (Frame 2 2 V4L2_PIX_FMT_RGB565 0 [31; 0; 224; 7; 0; 248; 255; 255] 0)
  = _jpeg_write_scanlines_rgb565
      (Frame 2 2 V4L2_PIX_FMT_RGB565 3 [31; 0; 224; 7; 1; 2; 3; 0; 248; 255; 255; 4; 5; 6] 0).
Proof.
  apply (rgb565_padding_isolation
           (Frame 2 2 V4L2_PIX_FMT_RGB565 0 [31; 0; 224; 7; 0; 248; 255; 255] 0)
           (Frame 2 2 V4L2_PIX_FMT_RGB565 3
              [31; 0; 224; 7; 1; 2; 3; 0; 248; 255; 255; 4; 5; 6] 0));
    try solve [reflexivity | cbn; lia].
  intros r k Hr Hk. cbn in Hr, Hk.
  (assert (r = 0 ∨ r = 1) as [->| ->] by lia);
  (assert (k = 0 ∨ k = 1 ∨ k = 2 ∨ k = 3) as [->|[->|[->| ->]]] by lia); reflexivity.
Defined.

(** X15. Two 24-bit frames of one geometry with the same logical bytes in
    every row, whatever their paddings and padding bytes, are fed alike, as
    BGR24 and as RGB24. *)
Lemma packed24_padding_isolation (f1 f2 : us_frame_s) :
  width f2 = width f1 → height f2 = height f1 →
  0 ≤ width f1 → 0 ≤ padding f1 → 0 ≤ padding f2 →
  height f1 * (width f1 * 3 + padding f1) ≤ Z.of_nat (length (data f1)) →
  height f1 * (width f1 * 3 + padding f2) ≤ Z.of_nat (length (data f2)) →
  (∀ r k, 0 ≤ r < height f1 → 0 ≤ k < 3 * width f1 →
     byte_at (data f1) (r * (width f1 * 3 + padding f1) + k)
     = byte_at (data f2) (r * (width f1 * 3 + padding f2) + k)) →
  _jpeg_write_scanlines_bgr24 f1 = _jpeg_write_scanlines_bgr24 f2
  ∧ _jpeg_write_scanlines_rgb24 f1 = _jpeg_write_scanlines_rgb24 f2.
Proof.
  intros Hw Hh Hw0 Hp1 Hp2 Hl1 Hl2 Hbytes.
  rewrite !bgr24_feeder_rows, !rgb24_feeder_rows by (rewrite ?Hw, ?Hh; done).
  unfold bgr24_expected, rgb24_expected. rewrite Hw, Hh.
  split; f_equal; apply rows_ext; intros r x Hr Hx; cbn zeta;
    rewrite <-!Z.add_assoc, !Hbytes by (try done; lia); done.
Qed.

Lemma packed24_padding_isolation_witness :
  let tight := [1; 2; 3; 4; 5; 6] in
  let padded := [1; 2; 3; 90; 4; 5; 6; 91] in
  _jpeg_write_scanlines_bgr24 (Frame 1 2 V4L2_PIX_FMT_BGR24 0 tight 0)
  = _jpeg_write_scanlines_bgr24 (Frame 1 2 V4L2_PIX_FMT_BGR24 1 padded 0)
  ∧ _jpeg_write_scanlines_rgb24 (Frame 1 2 V4L2_PIX_FMT_RGB24 0 tight 0)
    = _jpeg_write_scanlines_rgb24 (Frame 1 2 V4L2_PIX_FMT_RGB24 1 padded 0).
Proof.
  intros tight padded.
  pose proof (packed24_padding_isolation (Frame 1 2 V4L2_PIX_FMT_BGR24 0 tight 0)
                (Frame 1 2 V4L2_PIX_FMT_BGR24 1 padded 0)) as Hbgr.
  pose proof (packed24_padding_isolation (Frame 1 2 V4L2_PIX_FMT_RGB24 0 tight 0)
                (Frame 1 2 V4L2_PIX_FMT_RGB24 1 padded 0)) as Hrgb.
  assert (Hbytes : ∀ r k, 0 ≤ r < 2 → 0 ≤ k < 3 * 1 →
            byte_at tight (r * (1 * 3 + 0) + k) = byte_at padded (r * (1 * 3 + 1) + k)).
  { intros r k Hr Hk.
    (assert (r = 0 ∨ r = 1) as [->| ->] by lia);
    (assert (k = 0 ∨ k = 1 ∨ k = 2) as [->|[->| ->]] by lia); reflexivity. }
  split.
  - apply Hbgr; solve [reflexivity | cbn; lia | exact Hbytes].
  - apply Hrgb; solve [reflexivity | cbn; lia | exact Hbytes].
Defined.

(** *** The semi-planar feeders apply the padding to the RGB buffer *)

Lemma read_bytes_past_end (m : list Z) (n : nat) (d : Z) :
  (0 < n)%nat → Z.of_nat (length m) < d + Z.of_nat n → read_bytes m d n = None.
Proof.
  revert d. induction n as [|n IH]; intros d Hn Hend; [lia|].
  cbn [read_bytes]. unfold load at 1. case_decide; [|done].
  destruct (m !! Z.to_nat d) as [b|] eqn:Hb; [|done]. cbn.
  apply lookup_lt_Some in Hb.
  rewrite IH; [done|lia|lia].
Qed.

Lemma for_loop_preserves {S : Type} (P : S → Prop) (body : Z → S → option S)
    (n : nat) (k : Z) (s s' : S) :
  (∀ i t t', body i t = Some t' → P t → P t') →
  for_loop body n k s = Some s' → P s → P s'.
Proof.
  intros Hbody. revert k s. induction n as [|n IH]; intros k s Hrun Hs.
  - by injection Hrun as <-.
  - cbn [for_loop] in Hrun. destruct (body k s) as [t|] eqn:Hk; [|done].
    cbn in Hrun. eapply IH; [done|]. by eapply Hbody.
Qed.

Lemma nv_pixel_at_length (inp : list Z) (yi ui : Z) (out out' : list Z) :
  nv_pixel_at inp yi ui out = Some out' → length out' = length out.
Proof.
  unfold nv_pixel_at. intros Hrun.
  destruct (load inp yi); [|done]. destruct (load inp ui); [|done].
  destruct (load inp (ui + 1)); [|done]. cbn [mbind option_bind] in Hrun.
  destruct (store out _ _) as [o1|] eqn:H1; [|done]. cbn [mbind option_bind] in Hrun.
  destruct (store o1 _ _) as [o2|] eqn:H2; [|done]. cbn [mbind option_bind] in Hrun.
  destruct (load_store _ _ _ _ 0 H1) as [E1 _].
  destruct (load_store _ _ _ _ 0 H2) as [E2 _].
  destruct (load_store _ _ _ _ 0 Hrun) as [E3 _]. congruence.
Qed.

Lemma nv_loops_length (pixel : Z → Z → list Z → option (list Z)) (n m : nat)
    (out out' : list Z) :
  (∀ i j o o', pixel i j o = Some o' → length o' = length o) →
  for_loop (λ i, for_loop (λ j, pixel i j) m 0) n 0 out = Some out' →
  length out' = length out.
Proof.
  intros Hpixel Hrun.
  apply (for_loop_preserves (λ o, length o = length out) _ _ _ _ _) in Hrun; [done| |done].
  intros i t t' Hrow Ht.
  apply (for_loop_preserves (λ o, length o = length out) _ _ _ _ _) in Hrow; [done| |done].
  intros j u u' Hpx Hu. by rewrite (Hpixel _ _ _ _ Hpx).
Qed.

(** Whatever the converter produced, with non-zero padding the last row of a
    frame of two rows or more is not a row of the RGB buffer: the read runs
    past its end. *)
Lemma nv_feed_last_row (rgb : option (list Z)) (f : us_frame_s) (p : Z) :
  0 < width f → 2 ≤ height f → 0 < p →
  (∀ out, rgb = Some out → Z.of_nat (length out) = width f * height f * 3) →
  nv_feed rgb f p !! Z.to_nat (height f - 1) = Some None.
Proof.
  intros Hw Hh Hp Hlen. unfold nv_feed. destruct rgb as [out|].
  - specialize (Hlen out eq_refl).
    rewrite (scanline_loop_rows _ (λ r, r * (width f * 3 + p))
               (λ r, read_bytes out (r * (width f * 3 + p)) (Z.to_nat (width f * 3))) _ 0)
      by (intros; f_equal; lia).
    rewrite list_lookup_fmap, lookup_seqZ_lt by lia. cbn. f_equal.
    apply read_bytes_past_end; [lia|]. nia.
  - apply lookup_replicate_2. lia.
Qed.

(** X16. On a semi-planar frame with at least two rows and a positive
    padding, the last row that each of the three feeders hands to the
    compressor is read past the end of the RGB buffer, which holds
    [width * height * 3] bytes and no padding. *)
Lemma nv_feeders_last_row (f : us_frame_s) :
  0 < width f → 2 ≤ height f → 0 < padding f →
  _jpeg_write_scanlines_nv12 f !! Z.to_nat (height f - 1) = Some None
  ∧ _jpeg_write_scanlines_nv16 f !! Z.to_nat (height f - 1) = Some None
  ∧ _jpeg_write_scanlines_nv24 f !! Z.to_nat (height f - 1) = Some None.
Proof.
  intros Hw Hh Hp.
  unfold _jpeg_write_scanlines_nv12, _jpeg_write_scanlines_nv16, _jpeg_write_scanlines_nv24,
    us_frame_get_padding.
  split_and!; (apply nv_feed_last_row; [done..|]); intros out Hrun;
    apply nv_loops_length in Hrun;
    try (rewrite Hrun, length_replicate; nia).
  - intros i j o o'. rewrite nv12_pixel_at. apply nv_pixel_at_length.
  - intros i j o o'. rewrite nv16_pixel_at. apply nv_pixel_at_length.
  - intros i j o o'. rewrite nv24_pixel_at. apply nv_pixel_at_length.
Qed.

Lemma nv_feeders_last_row_witness :
  _jpeg_write_scanlines_nv24
    (Frame 1 2 V4L2_PIX_FMT_NV24 1 [16; 0; 235; 0; 90; 240; 0; 54; 34; 0] 0)
  !! 1%nat = Some None.
Proof.
  apply (nv_feeders_last_row
           (Frame 1 2 V4L2_PIX_FMT_NV24 1 [16; 0; 235; 0; 90; 240; 0; 54; 34; 0] 0));
    cbn; lia.
Defined.

(** C1 fails on the semi-planar paths. One 2x4 NV12 image, stored without
    padding and stored with one padding byte per row (0 or 255): the rows
    handed to the compressor differ between the three, the padded frames
    give rows that depend on the value of the padding bytes, and their last
    row is read past the end of the RGB buffer.  The same on 2x2 NV16 and
    NV24 images. *)
Theorem nv_feeders_padding_leak :
  let nv12 p bytes := _jpeg_write_scanlines_nv12 (Frame 2 4 V4L2_PIX_FMT_NV12 p bytes 0) in
  let nv16 p bytes := _jpeg_write_scanlines_nv16 (Frame 2 2 V4L2_PIX_FMT_NV16 p bytes 0) in
  let nv24 p bytes := _jpeg_write_scanlines_nv24 (Frame 2 2 V4L2_PIX_FMT_NV24 p bytes 0) in
  let nv12_padded x :=
    [16; 235; x; 81; 145; x; 41; 210; x; 170; 106; x; 90; 240; x; 54; 34; x] in
  let nv16_padded x := [16; 235; x; 81; 145; x; 90; 240; x; 54; 34; x] in
  let nv24_padded x :=
    [16; 235; x; 81; 145; x; 90; 240; 54; 34; x; 200; 100; 128; 128; x] in
  nv12 0 [16; 235; 81; 145; 41; 210; 170; 106; 90; 240; 54; 34]
  = [Some [179; 0; 0; 255; 179; 178]; Some [255; 0; 0; 255; 74; 74];
     Some [0; 134; 0; 76; 255; 77]; Some [29; 255; 30; 0; 210; 0]]
  ∧ nv12 1 (nv12_padded 0)
    = [Some [67; 16; 0; 255; 255; 0]; Some [0; 0; 143; 92; 0; 0];
       Some [106; 0; 94; 0; 0; 142]; None]
  ∧ nv12 1 (nv12_padded 255)
    = [Some [67; 0; 255; 255; 171; 255]; Some [194; 255; 143; 0; 255; 255];
       Some [106; 255; 184; 234; 232; 0]; None]
  ∧ nv16 0 [16; 235; 81; 145; 90; 240; 54; 34]
    = [Some [179; 0; 0; 255; 179; 178]; Some [0; 181; 0; 0; 255; 1]]
  ∧ nv16 1 (nv16_padded 0) = [Some [0; 97; 34; 50; 255; 255]; None]
  ∧ nv16 1 (nv16_padded 255) = [Some [203; 0; 34; 255; 145; 255]; None]
  ∧ nv24 0 [16; 235; 81; 145; 90; 240; 54; 34; 200; 100; 128; 128]
    = [Some [179; 0; 0; 105; 255; 106]; Some [31; 70; 221; 150; 150; 150]]
  ∧ nv24 1 (nv24_padded 0) = [Some [0; 97; 34; 255; 179; 178]; None]
  ∧ nv24 1 (nv24_padded 255) = [Some [203; 0; 34; 255; 179; 178]; None]
  ∧ nv12 1 (nv12_padded 0) ≠ nv12 1 (nv12_padded 255)
  ∧ nv16 1 (nv16_padded 0) ≠ nv16 1 (nv16_padded 255)
  ∧ nv24 1 (nv24_padded 0) ≠ nv24 1 (nv24_padded 255).
Proof. cbv zeta. split_and!; by vm_compute. Qed.

(** * Further properties of the encoder *)

(** ** The 4:2:2 and 4:4:4 semi-planar converters *)

(** What the two loops leave for one pixel, whatever the layout. *)
Lemma nv_loops_pixel (inp : list Z) (pixel : Z → Z → list Z → option (list Z))
    (uv : Z → Z → Z) (w h : Z) (out : list Z) :
  (∀ i j o, pixel i j o = nv_pixel_at inp (i * w + j) (uv i j) o) →
  0 ≤ w → 0 ≤ h →
  w * h ≤ Z.of_nat (length inp) →
  (∀ i j, 0 ≤ i < h → 0 ≤ j < w → 0 ≤ uv i j ∧ uv i j + 1 < Z.of_nat (length inp)) →
  Z.of_nat (length out) = w * h * 3 →
  ∃ out', for_loop (λ i, for_loop (λ j, pixel i j) (Z.to_nat w) 0) (Z.to_nat h) 0 out
          = Some out'
    ∧ length out' = length out
    ∧ ∀ row col, 0 ≤ row < h → 0 ≤ col < w →
        let px := nv_rgb (byte_at inp (row * w + col)) (byte_at inp (uv row col))
                    (byte_at inp (uv row col + 1)) in
        load out' ((row * w + col) * 3) = Some (px !!! 0%nat)
        ∧ load out' ((row * w + col) * 3 + 1) = Some (px !!! 1%nat)
        ∧ load out' ((row * w + col) * 3 + 2) = Some (px !!! 2%nat).
Proof.
  intros Hpixel Hw Hh Hluma Huv Hout.
  destruct (nv_loops_fill inp pixel uv w h Hpixel Hw Hh Hluma Huv out Hout)
    as (out' & Hrun & Hlen' & Hin).
  exists out'. split_and!; [done|lia|].
  intros row col Hrow Hcol. cbn zeta.
  destruct (pixel_index row col w h) as (Hp & Hdiv & Hmod); [done..|].
  pose proof (Hin ((row * w + col) * 3) ltac:(lia)) as H0.
  pose proof (Hin ((row * w + col) * 3 + 1) ltac:(lia)) as H1.
  pose proof (Hin ((row * w + col) * 3 + 2) ltac:(lia)) as H2.
  unfold nv_byte, nv_pixel_rgb in H0, H1, H2.
  replace (((row * w + col) * 3) `div` 3) with (row * w + col) in H0
    by (Z.div_mod_to_equations; lia).
  replace (((row * w + col) * 3 + 1) `div` 3) with (row * w + col) in H1
    by (Z.div_mod_to_equations; lia).
  replace (((row * w + col) * 3 + 2) `div` 3) with (row * w + col) in H2
    by (Z.div_mod_to_equations; lia).
  replace (((row * w + col) * 3) `mod` 3) with 0 in H0 by (Z.div_mod_to_equations; lia).
  replace (((row * w + col) * 3 + 1) `mod` 3) with 1 in H1 by (Z.div_mod_to_equations; lia).
  replace (((row * w + col) * 3 + 2) `mod` 3) with 2 in H2 by (Z.div_mod_to_equations; lia).
  rewrite Hdiv, Hmod in H0, H1, H2. done.
Qed.

(** X1. On an NV16 frame of even width whose buffer holds the luma plane and
    a chroma plane of the same size, the converter succeeds and leaves, for
    the pixel at ([row], [col]), at index [(row * width + col) * 3] of the RGB
    buffer, the clamped triple computed from its luma byte and from the
    chroma pair at [width * height + row * width + 2 * (col / 2)]: the pair
    is shared by two neighbours in a row, never between rows. *)
Theorem nv16_conversion_exact (inp out : list Z) (w h : Z) :
  0 ≤ w → Z.even w = true → 0 ≤ h →
  Z.of_nat (length out) = w * h * 3 →
  2 * (w * h) ≤ Z.of_nat (length inp) →
  ∃ out', _nv16_to_rgb24 inp out w h = Some out'
    ∧ length out' = length out
    ∧ ∀ row col, 0 ≤ row < h → 0 ≤ col < w →
        let uv_index := w * h + row * w + 2 * (col `div` 2) in
        let Y := byte_at inp (row * w + col) in
        let U := byte_at inp uv_index - 128 in
        let V := byte_at inp (uv_index + 1) - 128 in
        load out' ((row * w + col) * 3)
        = Some (clamp ((298 * (Y - 16) + 409 * V + 128) ≫ 8))
        ∧ load out' ((row * w + col) * 3 + 1)
          = Some (clamp ((298 * (Y - 16) - 100 * U - 208 * V + 128) ≫ 8))
        ∧ load out' ((row * w + col) * 3 + 2)
          = Some (clamp ((298 * (Y - 16) + 516 * U + 128) ≫ 8)).
Proof.
  intros Hw Hev Hh Hout Hlen.
  destruct (nv_loops_pixel inp (nv16_pixel inp w h) (nv16_uv w h) w h out)
    as (out' & Hrun & Hlen' & Hpx); try done.
  { intros. apply nv16_pixel_at. }
  { nia. }
  { intros i j Hi Hj.
    destruct (nv16_uv_in_bounds w h i j (Z.of_nat (length inp))) as (_ & ? & ?); try done.
    split; [nia|done]. }
  exists out'. split_and!; [done..|].
  intros row col Hrow Hcol. cbn zeta.
  destruct (nv16_uv_in_bounds w h row col (Z.of_nat (length inp))) as (Huv & _); try done.
  specialize (Hpx row col Hrow Hcol). cbn zeta in Hpx. rewrite Huv in Hpx. exact Hpx.
Qed.

Lemma nv16_conversion_exact_witness :
  ∃ out', _nv16_to_rgb24 [16; 235; 81; 145; 90; 240; 54; 34] (replicate 12 0) 2 2 = Some out'
    ∧ out' = [179; 0; 0; 255; 179; 178; 0; 181; 0; 0; 255; 1].
Proof.
  destruct (nv16_conversion_exact [16; 235; 81; 145; 90; 240; 54; 34] (replicate 12 0) 2 2)
    as (out' & Hrun & Hlen & _); [lia|reflexivity|lia|reflexivity|by vm_compute|].
  exists out'. split; [exact Hrun|].
  vm_compute in Hrun. by injection Hrun as <-.
Defined.

(** X2. On an NV24 frame whose buffer holds the luma plane and a chroma plane
    of twice its size, the converter succeeds and leaves, for the pixel at
    ([row], [col]), at index [(row * width + col) * 3] of the RGB buffer, the
    clamped triple computed from its luma byte and from its own chroma pair
    at [width * height + 2 * col + row * width * 2]; any width, odd ones
    included. *)
Theorem nv24_conversion_exact (inp out : list Z) (w h : Z) :
  0 ≤ w → 0 ≤ h →
  Z.of_nat (length out) = w * h * 3 →
  3 * (w * h) ≤ Z.of_nat (length inp) →
  ∃ out', _nv24_to_rgb24 inp out w h = Some out'
    ∧ length out' = length out
    ∧ ∀ row col, 0 ≤ row < h → 0 ≤ col < w →
        let uv_index := w * h + 2 * col + row * w * 2 in
        let Y := byte_at inp (row * w + col) in
        let U := byte_at inp uv_index - 128 in
        let V := byte_at inp (uv_index + 1) - 128 in
        load out' ((row * w + col) * 3)
        = Some (clamp ((298 * (Y - 16) + 409 * V + 128) ≫ 8))
        ∧ load out' ((row * w + col) * 3 + 1)
          = Some (clamp ((298 * (Y - 16) - 100 * U - 208 * V + 128) ≫ 8))
        ∧ load out' ((row * w + col) * 3 + 2)
          = Some (clamp ((298 * (Y - 16) + 516 * U + 128) ≫ 8)).
Proof.
  intros Hw Hh Hout Hlen.
  destruct (nv_loops_pixel inp (nv24_pixel inp w h) (nv24_uv w h) w h out)
    as (out' & Hrun & Hlen' & Hpx); try done.
  { intros. apply nv24_pixel_at. }
  { nia. }
  { intros i j Hi Hj.
    destruct (nv24_uv_in_bounds w h i j (Z.of_nat (length inp))) as (? & ?); try done.
    split; [nia|done]. }
  exists out'. split_and!; [done..|].
  intros row col Hrow Hcol. exact (Hpx row col Hrow Hcol).
Qed.

Lemma nv24_conversion_exact_witness :
  ∃ out', _nv24_to_rgb24 [16; 235; 81; 90; 240; 54; 34; 200; 100] (replicate 9 0) 3 1
          = Some out'
    ∧ out' = [179; 0; 0; 105; 255; 106; 31; 70; 221].
Proof.
  destruct (nv24_conversion_exact [16; 235; 81; 90; 240; 54; 34; 200; 100] (replicate 9 0) 3 1)
    as (out' & Hrun & Hlen & _); [lia|lia|reflexivity|by vm_compute|].
  exists out'. split; [exact Hrun|].
  vm_compute in Hrun. by injection Hrun as <-.
Defined.

(** ** The semi-planar feeders on frames without padding *)




(** ** Pass-through, round trip and byte order on the packed paths *)

Lemma read_bytes_take_drop (m : list Z) (n : nat) (d : Z) :
  0 ≤ d → d + Z.of_nat n ≤ Z.of_nat (length m) →
  read_bytes m d n = Some (take n (drop (Z.to_nat d) m)).
Proof.
  revert d. induction n as [|n IH]; intros d Hd Hlen; [done|].
  cbn [read_bytes]. unfold load. rewrite decide_True by done.
  destruct (lookup_lt_is_Some_2 m (Z.to_nat d)) as [b Hb]; [lia|].
  rewrite Hb. cbn [mbind option_bind]. rewrite IH by lia. cbn.
  rewrite (drop_S _ _ _ Hb). cbn.
  by replace (Z.to_nat (d + 1)) with (S (Z.to_nat d)) by lia.
Qed.

(** X6. On a well-formed RGB24 frame the feeder hands the compressor, for
    row [r], exactly the [3 * width] source bytes that start at
    [r * (3 * width + padding)], unchanged: no conversion, no copy of the
    padding. *)
Theorem rgb24_rows_are_source_bytes (f : us_frame_s) :
  0 ≤ width f → 0 ≤ padding f →
  height f * (width f * 3 + padding f) ≤ Z.of_nat (length (data f)) →
  _jpeg_write_scanlines_rgb24 f
  = (λ r, Some (take (Z.to_nat (width f * 3))
                  (drop (Z.to_nat (r * (width f * 3 + padding f))) (data f))))
    <$> seqZ 0 (height f).
Proof.
  intros Hw Hp Hlen. unfold _jpeg_write_scanlines_rgb24, us_frame_get_padding.
  rewrite <-(seqZ_to_nat 0 (height f)).
  apply (scanline_loop_rows _ (λ r, r * (width f * 3 + padding f)) _ _ 0).
  intros r Hr. rewrite Z2Nat.id in Hr by lia.
  destruct (row_start_bound r (height f) (width f * 3 + padding f)) as [Hb0 Hb1]; [lia..|].
  rewrite read_bytes_take_drop by lia. f_equal. lia.
Qed.

Lemma rgb24_rows_are_source_bytes_witness :
  _jpeg_write_scanlines_rgb24
    (Frame 2 2 V4L2_PIX_FMT_RGB24 2 [1; 2; 3; 4; 5; 6; 90; 91; 7; 8; 9; 10; 11; 12; 92; 93] 0)
  = [Some [1; 2; 3; 4; 5; 6]; Some [7; 8; 9; 10; 11; 12]].
Proof.
  apply (rgb24_rows_are_source_bytes
           (Frame 2 2 V4L2_PIX_FMT_RGB24 2
              [1; 2; 3; 4; 5; 6; 90; 91; 7; 8; 9; 10; 11; 12; 92; 93] 0)); cbn; lia.
Defined.

Lemma rgb565_rgb_le (r5 g6 b5 : Z) (d0 d1 : Z) :
  0 ≤ r5 < 32 → 0 ≤ g6 < 64 → 0 ≤ b5 < 32 →
  [d0; d1] = rgb565_le r5 g6 b5 →
  rgb565_rgb d0 d1 = [8 * r5; 4 * g6; 8 * b5].
Proof.
  intros Hr Hg Hb Hle. unfold rgb565_le in Hle. cbn zeta in Hle.
  injection Hle as -> ->. unfold rgb565_rgb.
  rewrite !Z.shiftr_div_pow2, Z.shiftl_mul_pow2 by lia.
  change (2 ^ 3) with 8. change (2 ^ 5) with 32. change (2 ^ 8) with 256.
  set (v := r5 * 2048 + g6 * 32 + b5).
  assert (Hv : v `div` 256 * 256 + v `mod` 256 = v) by (Z.div_mod_to_equations; lia).
  rewrite Hv.
  replace (((v `div` 256) `div` 8) `mod` 32) with r5 by (subst v; Z.div_mod_to_equations; lia).
  replace ((v `div` 32) `mod` 64) with g6 by (subst v; Z.div_mod_to_equations; lia).
  replace ((v `mod` 256) `mod` 32) with b5 by (subst v; Z.div_mod_to_equations; lia).
  done.
Qed.

(** X7. Round trip of the 5-6-5 fields: on a well-formed RGB565 frame whose
    pixel ([r], [x]) is the little-endian 16-bit value packed from red
    [R r x] (5 bits), green [G r x] (6 bits) and blue [B r x] (5 bits), the
    feeder hands over [8 * R r x], [4 * G r x], [8 * B r x] for that pixel:
    each field comes back, scaled to the top of its byte, and no field
    leaks into another channel. *)
Theorem rgb565_fields_round_trip (f : us_frame_s) (R G B : Z → Z → Z) :
  0 ≤ width f → 0 ≤ padding f →
  height f * (2 * width f + padding f) ≤ Z.of_nat (length (data f)) →
  (∀ r x, 0 ≤ r < height f → 0 ≤ x < width f →
     let d := r * (2 * width f + padding f) + 2 * x in
     (0 ≤ R r x < 32 ∧ 0 ≤ G r x < 64 ∧ 0 ≤ B r x < 32)
     ∧ [byte_at (data f) d; byte_at (data f) (d + 1)] = rgb565_le (R r x) (G r x) (B r x)) →
  _jpeg_write_scanlines_rgb565 f
  = Some <$> ((λ r, concat ((λ x, [8 * R r x; 4 * G r x; 8 * B r x]) <$> seqZ 0 (width f)))
              <$> seqZ 0 (height f)).
Proof.
  intros Hw Hp Hlen Hpix. rewrite rgb565_feeder_rows by done. f_equal.
  unfold rgb565_expected. apply rows_ext. intros r x Hr Hx.
  destruct (Hpix r x Hr Hx) as ((HR & HG & HB) & Hle). cbn zeta in Hle.
  unfold rgb565_expected_pixel. by apply rgb565_rgb_le.
Qed.

Lemma rgb565_fields_round_trip_witness :
  _jpeg_write_scanlines_rgb565
    (Frame 2 1 V4L2_PIX_FMT_RGB565 1 [0; 248; 239; 7; 99] 0)
  = [Some [248; 0; 0; 0; 252; 120]].
Proof.
  apply (rgb565_fields_round_trip (Frame 2 1 V4L2_PIX_FMT_RGB565 1 [0; 248; 239; 7; 99] 0)
           (λ _ x, 31 - 31 * x) (λ _ x, 63 * x) (λ _ x, 15 * x)); cbn; try lia.
  intros r x Hr Hx. assert (r = 0) as -> by lia.
  (assert (x = 0 ∨ x = 1) as [->| ->] by lia); cbn; (split; [lia|reflexivity]).
Defined.

(** X8. On well-formed frames of even width the two packed 4:2:2 layouts
    differ by the order of the two bytes of each pair only: if every byte
    pair of the logical rows of [fu] is the pair of [fy] at the same place
    with its bytes exchanged, the UYVY feeder on [fu] and the YUYV feeder on
    [fy] hand over the same rows.  (For an odd width the feeders read chroma
    outside the logical rows, and the relation is lost.) *)
Theorem uyvy_yuyv_byte_swapped (fy fu : us_frame_s) :
  width fu = width fy → height fu = height fy → padding fu = padding fy →
  0 ≤ width fy → Z.even (width fy) = true → 0 ≤ padding fy →
  height fy * (2 * width fy + padding fy) ≤ Z.of_nat (length (data fy)) →
  height fy * (2 * width fy + padding fy) ≤ Z.of_nat (length (data fu)) →
  (∀ r k, 0 ≤ r < height fy → 0 ≤ k < width fy →
     let d := r * (2 * width fy + padding fy) + 2 * k in
     byte_at (data fu) d = byte_at (data fy) (d + 1)
     ∧ byte_at (data fu) (d + 1) = byte_at (data fy) d) →
  _jpeg_write_scanlines_uyvy fu = _jpeg_write_scanlines_yuyv fy.
Proof.
  intros Hw Hh Hp Hw0 Hev Hp0 Hly Hlu Hswap.
  pose proof Hev as [m Hm]%Z.even_spec.
  rewrite uyvy_feeder_rows, yuyv_feeder_rows by (rewrite ?Hw, ?Hh, ?Hp; done).
  unfold yuyv_expected, uyvy_expected. rewrite Hw, Hh, Hp. f_equal.
  apply rows_ext. intros r x Hr Hx.
  unfold yuyv_expected_pixel, uyvy_expected_pixel. cbn zeta.
  set (b := r * (2 * width fy + padding fy)) in *.
  destruct (Hswap r x Hr Hx) as [_ HY]. fold b in HY. cbn zeta in HY.
  destruct (Hswap r (2 * (x `div` 2)) Hr ltac:(Z.div_mod_to_equations; lia)) as [HU _].
  destruct (Hswap r (2 * (x `div` 2) + 1) Hr ltac:(Z.div_mod_to_equations; lia)) as [HV _].
  fold b in HU, HV. cbn zeta in HU, HV.
  replace (b + 4 * (x `div` 2) + 2 * (x `mod` 2) + 1) with (b + 2 * x + 1)
    by (Z.div_mod_to_equations; lia).
  replace (b + 4 * (x `div` 2) + 2 * (x `mod` 2)) with (b + 2 * x)
    by (Z.div_mod_to_equations; lia).
  replace (b + 4 * (x `div` 2)) with (b + 2 * (2 * (x `div` 2))) by lia.
  replace (b + 2 * (2 * (x `div` 2)) + 2) with (b + 2 * (2 * (x `div` 2) + 1)) by lia.
  replace (b + 2 * (2 * (x `div` 2)) + 3) with (b + 2 * (2 * (x `div` 2) + 1) + 1) by lia.
  by rewrite HY, HU, HV.
Qed.

Lemma uyvy_yuyv_byte_swapped_witness :
  let fy := Frame 2 2 V4L2_PIX_FMT_YUYV 1 [0; 255; 81; 255; 7; 200; 16; 255; 240; 9] 0 in
  let fu := Frame 2 2 V4L2_PIX_FMT_UYVY 1 [255; 0; 255; 81; 8; 16; 200; 240; 255; 10] 0 in
  _jpeg_write_scanlines_uyvy fu = _jpeg_write_scanlines_yuyv fy
  ∧ _jpeg_write_scanlines_yuyv fy
    = [Some [178; 0; 225; 255; 0; 255]; Some [255; 158; 1; 255; 213; 56]].
Proof.
  intros fy fu. split; [|reflexivity].
  apply (uyvy_yuyv_byte_swapped fy fu); try reflexivity; cbn; try lia.
  intros r k Hr Hk.
  (assert (r = 0 ∨ r = 1) as [->| ->] by lia);
  (assert (k = 0 ∨ k = 1) as [->| ->] by lia); split; reflexivity.
Defined.

(** ** The three subsampling layouts against each other *)

Lemma nv_converters_agree (in1 in2 : list Z)
    (pixel1 pixel2 : Z → Z → list Z → option (list Z)) (uv1 uv2 : Z → Z → Z)
    (w h : Z) (out : list Z) :
  (∀ i j o, pixel1 i j o = nv_pixel_at in1 (i * w + j) (uv1 i j) o) →
  (∀ i j o, pixel2 i j o = nv_pixel_at in2 (i * w + j) (uv2 i j) o) →
  0 ≤ w → 0 ≤ h →
  Z.of_nat (length out) = w * h * 3 →
  w * h ≤ Z.of_nat (length in1) → w * h ≤ Z.of_nat (length in2) →
  (∀ i j, 0 ≤ i < h → 0 ≤ j < w → 0 ≤ uv1 i j ∧ uv1 i j + 1 < Z.of_nat (length in1)) →
  (∀ i j, 0 ≤ i < h → 0 ≤ j < w → 0 ≤ uv2 i j ∧ uv2 i j + 1 < Z.of_nat (length in2)) →
  (∀ p, 0 ≤ p < w * h → byte_at in1 p = byte_at in2 p) →
  (∀ i j, 0 ≤ i < h → 0 ≤ j < w →
     byte_at in1 (uv1 i j) = byte_at in2 (uv2 i j)
     ∧ byte_at in1 (uv1 i j + 1) = byte_at in2 (uv2 i j + 1)) →
  for_loop (λ i, for_loop (λ j, pixel1 i j) (Z.to_nat w) 0) (Z.to_nat h) 0 out
  = for_loop (λ i, for_loop (λ j, pixel2 i j) (Z.to_nat w) 0) (Z.to_nat h) 0 out
  ∧ is_Some (for_loop (λ i, for_loop (λ j, pixel2 i j) (Z.to_nat w) 0) (Z.to_nat h) 0 out).
Proof.
  intros Hp1 Hp2 Hw Hh Hout Hl1 Hl2 Hu1 Hu2 Hluma Hchroma.
  rewrite (nv_loops_filled in1 pixel1 uv1 w h), (nv_loops_filled in2 pixel2 uv2 w h) by done.
  split; [|done]. do 2 f_equal.
  apply Forall_fmap_ext, Forall_forall. intros p Hp%elem_of_seqZ.
  assert (0 < w) by (destruct (decide (w = 0)) as [->|]; lia).
  assert (0 ≤ p `div` w < h)
    by (split; [apply Z.div_pos; lia|apply Z.div_lt_upper_bound; lia]).
  assert (0 ≤ p `mod` w < w) by (apply Z.mod_pos_bound; lia).
  unfold nv_pixel_rgb. rewrite Hluma by lia.
  by destruct (Hchroma (p `div` w) (p `mod` w)) as [-> ->].
Qed.

(** X9. Chroma replication commutes with the conversion: take an NV12 frame
    of even width; an NV16 frame with the same luma whose chroma row [i] is
    the NV12 chroma row [i / 2], and an NV24 frame with the same luma whose
    chroma pair at ([i], [j]) is the NV12 pair of ([i / 2], [j / 2]): the
    three converters succeed with the same RGB buffer. *)
Theorem nv_subsampling_consistent (in12 in16 in24 out : list Z) (w h : Z) :
  0 ≤ w → Z.even w = true → 0 ≤ h →
  Z.of_nat (length out) = w * h * 3 →
  w * h + w * ((h + 1) `div` 2) ≤ Z.of_nat (length in12) →
  2 * (w * h) ≤ Z.of_nat (length in16) →
  3 * (w * h) ≤ Z.of_nat (length in24) →
  (∀ p, 0 ≤ p < w * h →
     byte_at in16 p = byte_at in12 p ∧ byte_at in24 p = byte_at in12 p) →
  (∀ i j c, 0 ≤ i < h → 0 ≤ j < w → 0 ≤ c < 2 →
     let uv12 := w * h + ((i `div` 2) * w + 2 * (j `div` 2)) in
     byte_at in16 (w * h + i * w + 2 * (j `div` 2) + c) = byte_at in12 (uv12 + c)
     ∧ byte_at in24 (w * h + 2 * j + i * w * 2 + c) = byte_at in12 (uv12 + c)) →
  is_Some (_nv12_to_rgb24 in12 out w h)
  ∧ _nv16_to_rgb24 in16 out w h = _nv12_to_rgb24 in12 out w h
  ∧ _nv24_to_rgb24 in24 out w h = _nv12_to_rgb24 in12 out w h.
Proof.
  intros Hw Hev Hh Hout Hl12 Hl16 Hl24 Hluma Hchroma.
  assert (0 ≤ w * ((h + 1) `div` 2))
    by (apply Z.mul_nonneg_nonneg; [|Z.div_mod_to_equations]; lia).
  assert (0 ≤ w * h) by lia.
  assert (Hb12 : ∀ i j, 0 ≤ i < h → 0 ≤ j < w →
            0 ≤ nv12_uv w h i j ∧ nv12_uv w h i j + 1 < Z.of_nat (length in12)).
  { intros i j Hi Hj.
    destruct (nv12_uv_in_bounds w h i j (Z.of_nat (length in12))) as (_ & ? & ?); try done.
    lia. }
  destruct (nv_converters_agree in16 in12 (nv16_pixel in16 w h) (nv12_pixel in12 w h)
              (nv16_uv w h) (nv12_uv w h) w h out) as [H16 Hsome]; try done.
  { intros. apply nv16_pixel_at. }
  { intros. apply nv12_pixel_at. }
  { lia. }
  { lia. }
  { intros i j Hi Hj.
    destruct (nv16_uv_in_bounds w h i j (Z.of_nat (length in16))) as (_ & ? & ?); try done.
    lia. }
  { intros p Hp. by destruct (Hluma p Hp). }
  { intros i j Hi Hj.
    destruct (nv16_uv_in_bounds w h i j (Z.of_nat (length in16))) as (-> & _); try done.
    destruct (nv12_uv_in_bounds w h i j (Z.of_nat (length in12))) as (-> & _); try done.
    destruct (Hchroma i j 0 Hi Hj ltac:(lia)) as [Hc0 _].
    destruct (Hchroma i j 1 Hi Hj ltac:(lia)) as [Hc1 _].
    cbn zeta in Hc0, Hc1. rewrite !Z.add_0_r in Hc0. by rewrite Hc0, Hc1. }
  destruct (nv_converters_agree in24 in12 (nv24_pixel in24 w h) (nv12_pixel in12 w h)
              (nv24_uv w h) (nv12_uv w h) w h out) as [H24 _]; try done.
  { intros. apply nv24_pixel_at. }
  { intros. apply nv12_pixel_at. }
  { lia. }
  { lia. }
  { intros i j Hi Hj.
    destruct (nv24_uv_in_bounds w h i j (Z.of_nat (length in24))) as (? & ?); try done.
    lia. }
  { intros p Hp. by destruct (Hluma p Hp). }
  { intros i j Hi Hj. unfold nv24_uv.
    destruct (nv12_uv_in_bounds w h i j (Z.of_nat (length in12))) as (-> & _); try done.
    destruct (Hchroma i j 0 Hi Hj ltac:(lia)) as [_ Hc0].
    destruct (Hchroma i j 1 Hi Hj ltac:(lia)) as [_ Hc1].
    cbn zeta in Hc0, Hc1. rewrite !Z.add_0_r in Hc0. by rewrite Hc0, Hc1. }
Qed.

Lemma nv_subsampling_consistent_witness :
  let rgb := [179; 0; 0; 255; 179; 178; 255; 0; 0; 255; 74; 74] in
  _nv12_to_rgb24 [16; 235; 81; 145; 90; 240] (replicate 12 0) 2 2 = Some rgb
  ∧ _nv16_to_rgb24 [16; 235; 81; 145; 90; 240; 90; 240] (replicate 12 0) 2 2 = Some rgb
  ∧ _nv24_to_rgb24 [16; 235; 81; 145; 90; 240; 90; 240; 90; 240; 90; 240]
      (replicate 12 0) 2 2 = Some rgb.
Proof.
  intros rgb.
  destruct (nv_subsampling_consistent [16; 235; 81; 145; 90; 240]
              [16; 235; 81; 145; 90; 240; 90; 240]
              [16; 235; 81; 145; 90; 240; 90; 240; 90; 240; 90; 240] (replicate 12 0) 2 2)
    as (_ & -> & ->); try solve [lia | reflexivity | by vm_compute].
  - intros p Hp. (assert (p = 0 ∨ p = 1 ∨ p = 2 ∨ p = 3) as [->|[->|[->| ->]]] by lia);
      split; reflexivity.
  - intros i j c Hi Hj Hc.
    (assert (i = 0 ∨ i = 1) as [->| ->] by lia);
    (assert (j = 0 ∨ j = 1) as [->| ->] by lia);
    (assert (c = 0 ∨ c = 1) as [->| ->] by lia); split; reflexivity.
Defined.

(** ** Chunks of the streaming sink *)

Lemma sink_inv_counts (d : _jpeg_dest_manager_s) (s : list Z) (n : nat) :
  sink_inv d s n →
  Z.of_nat (length s) = 4096 * Z.of_nat n + next_output_byte d
  ∧ 0 ≤ next_output_byte d < 4096
  ∧ Z.of_nat n = Z.of_nat (length s) `div` 4096
  ∧ next_output_byte d = Z.of_nat (length s) `mod` 4096.
Proof.
  intros (Hbuf & Hfree & Hnext & Hused & Hcap & Hcontent).
  unfold JPEG_OUTPUT_BUFFER_SIZE in *.
  assert (Hlen : Z.of_nat (length s) = 4096 * Z.of_nat n + next_output_byte d).
  { rewrite <-Hcontent, length_app, !length_take. lia. }
  split; [done|]. split; [lia|]. split.
  - apply (Z.div_unique _ _ _ (next_output_byte d)); lia.
  - apply (Z.mod_unique _ _ (Z.of_nat n)); lia.
Qed.

(** X10. After the compressor has emitted any stream through the sink
    (flush-when-full and the compressor's writes as the spec gives them), the
    write cursor is inside the 4096-byte chunk buffer and at least one byte
    of it is free; flush-when-full has been invoked once per complete 4096
    bytes emitted, the chunk buffer holds the bytes emitted since the last
    flush, and finalize appends the remaining [length mod 4096] bytes (none
    when the length is a multiple of 4096). *)
Theorem sink_chunking (fresh : list Z) (mgr : _jpeg_dest_manager_s)
    (dest : us_frame_s) (stream : list Z) :
  let d0 := _jpeg_init_destination fresh (_jpeg_set_dest_frame mgr dest) in
  let d := (jpeg_emit d0 stream).1 in
  let n := Z.of_nat (length stream) in
  length (buf d) = 4096%nat
  ∧ 0 ≤ next_output_byte d < 4096
  ∧ next_output_byte d = n `mod` 4096
  ∧ free_in_buffer d = 4096 - n `mod` 4096
  ∧ Z.of_nat (jpeg_emit d0 stream).2 = n `div` 4096
  ∧ take (Z.to_nat (next_output_byte d)) (buf d)
    = drop (Z.to_nat (4096 * (n `div` 4096))) stream
  ∧ used (frame (_jpeg_term_destination d)) = used (frame d) + n `mod` 4096.
Proof.
  intros d0 d n.
  pose proof (sink_inv_init fresh mgr dest) as Hinit. fold d0 in Hinit.
  pose proof (sink_inv_emit stream d0 [] 0 Hinit) as Hinv. fold d in Hinv.
  cbn [app Nat.add] in Hinv.
  destruct (sink_inv_counts _ _ _ Hinv) as (Hlen & Hcur & Hdiv & Hmod).
  destruct (sink_inv_term _ _ _ Hinv) as (Hu & _).
  destruct Hinv as (Hbuf & Hfree & Hnext & Hused & Hcap & Hcontent).
  unfold JPEG_OUTPUT_BUFFER_SIZE in *. fold n in Hlen, Hdiv, Hmod.
  do 5 (split; [first [done | lia]|]).
  split; [|lia].
  rewrite <-Hdiv, <-Hused. clearbody d. rewrite <-Hcontent.
  rewrite drop_app_length'; [done|]. rewrite length_take. lia.
Qed.

(** ** Packed 4:2:2 frames of odd width *)

Lemma phase_step (z w : Z) :
  0 ≤ z ≤ 1 →
  4 * ((z + w) `div` 2) + 2 * ((z + w) `mod` 2) = 2 * (z + w) ∧ 4 * (z `div` 2) = 0
  ∧ z `mod` 2 = z.
Proof. intros Hz. Z.div_mod_to_equations. lia. Qed.

Lemma phase_next (r w : Z) : ((r + 1) * w) `mod` 2 = ((r * w) `mod` 2 + w) `mod` 2.
Proof. rewrite Z.add_mod_idemp_l by lia. f_equal. lia. Qed.

Lemma phase_row_start (r w p : Z) :
  0 ≤ r → 0 ≤ w → 0 ≤ p →
  0 ≤ (r * w) `mod` 2 ≤ 1 ∧ 0 ≤ r * (2 * w + p) - 2 * ((r * w) `mod` 2).
Proof.
  intros Hr Hw Hp. assert (Hz : 0 ≤ (r * w) `mod` 2 < 2) by (apply Z.mod_pos_bound; lia).
  split; [lia|].
  assert (0 ≤ r * (2 * w + p)) by (apply Z.mul_nonneg_nonneg; lia).
  destruct (decide ((r * w) `mod` 2 = 0)) as [Hz0|Hz1]; [rewrite Hz0; lia|].
  assert (r ≠ 0) by (intros ->; by rewrite Z.mul_0_l in Hz1).
  assert (w ≠ 0) by (intros ->; by rewrite Z.mul_0_r in Hz1).
  assert (1 * (2 * w + p) ≤ r * (2 * w + p)) by (apply Z.mul_le_mono_nonneg_r; lia). lia.
Qed.

(** X11. On a packed 4:2:2 frame of any width whose buffer holds [height]
    rows of [2 * width + padding] bytes and two bytes more, both feeders
    succeed; every pixel takes its luma from its own byte, and its chroma
    from the group selected by the phase carried over from the rows before.
    For an even width this is the group of the pixel; for an odd width the
    phase is 1 in every second row, and there the chroma is read two bytes
    before the pixel's own group, across the start of the row. *)
Theorem packed422_rows_any_width (f : us_frame_s) :
  0 ≤ width f → 0 ≤ padding f →
  height f * (2 * width f + padding f) + 2 ≤ Z.of_nat (length (data f)) →
  _jpeg_write_scanlines_yuyv f = Some <$> yuyv_rows_any_width f
  ∧ _jpeg_write_scanlines_uyvy f = Some <$> uyvy_rows_any_width f.
Proof.
  intros Hw Hp Hlen. split.
  - unfold _jpeg_write_scanlines_yuyv, yuyv_rows_any_width, us_frame_get_padding.
    rewrite <-list_fmap_compose, <-(seqZ_to_nat 0 (height f)).
    apply (scanline_loop_rows _
             (λ r, (r * (2 * width f + padding f) - 2 * ((r * width f) `mod` 2),
                    (r * width f) `mod` 2)) _ _ 0).
    intros r Hr. rewrite Z2Nat.id in Hr by lia. cbn beta iota.
    destruct (phase_row_start r (width f) (padding f)) as [Hz Hb]; [lia..|].
    destruct (row_start_bound r (height f) (2 * width f + padding f)) as [Hb0 Hb1]; [lia..|].
    set (z := (r * width f) `mod` 2) in *.
    set (b := r * (2 * width f + padding f) - 2 * z) in *.
    destruct (phase_step z (width f) Hz) as (Hstep & Hz2 & Hzm).
    pose proof (yuyv_line_index (data f) b (Z.to_nat (width f)) z) as Hline.
    rewrite Hz2, Hzm, Z.add_0_r, Z2Nat.id in Hline by lia.
    rewrite Hline; [|lia|lia|].
    + rewrite phase_next. fold z. f_equal; [|f_equal; lia]. cbn. do 2 f_equal.
      replace (seqZ z (width f)) with (Z.add z <$> seqZ 0 (width f))
        by (rewrite fmap_add_seqZ; f_equal; lia).
      rewrite <-list_fmap_compose.
      apply Forall_fmap_ext, Forall_forall. intros x Hx%elem_of_seqZ. cbn.
      unfold yuyv_expected_pixel. cbn zeta.
      destruct (phase_step z x Hz) as (Hx2 & _).
      repeat (f_equal; try lia).
    + right. destruct (phase_step z (width f - 1) Hz) as (Hlast & _).
      replace (z + width f - 1) with (z + (width f - 1)) by lia.
      assert (0 ≤ (z + (width f - 1)) `mod` 2) by (apply Z.mod_pos_bound; lia). lia.
  - unfold _jpeg_write_scanlines_uyvy, uyvy_rows_any_width, us_frame_get_padding.
    rewrite <-list_fmap_compose, <-(seqZ_to_nat 0 (height f)).
    apply (scanline_loop_rows _
             (λ r, (r * (2 * width f + padding f) - 2 * ((r * width f) `mod` 2),
                    (r * width f) `mod` 2)) _ _ 0).
    intros r Hr. rewrite Z2Nat.id in Hr by lia. cbn beta iota.
    destruct (phase_row_start r (width f) (padding f)) as [Hz Hb]; [lia..|].
    destruct (row_start_bound r (height f) (2 * width f + padding f)) as [Hb0 Hb1]; [lia..|].
    set (z := (r * width f) `mod` 2) in *.
    set (b := r * (2 * width f + padding f) - 2 * z) in *.
    destruct (phase_step z (width f) Hz) as (Hstep & Hz2 & Hzm).
    pose proof (uyvy_line_index (data f) b (Z.to_nat (width f)) z) as Hline.
    rewrite Hz2, Hzm, Z.add_0_r, Z2Nat.id in Hline by lia.
    rewrite Hline; [|lia|lia|].
    + rewrite phase_next. fold z. f_equal; [|f_equal; lia]. cbn. do 2 f_equal.
      replace (seqZ z (width f)) with (Z.add z <$> seqZ 0 (width f))
        by (rewrite fmap_add_seqZ; f_equal; lia).
      rewrite <-list_fmap_compose.
      apply Forall_fmap_ext, Forall_forall. intros x Hx%elem_of_seqZ. cbn.
      unfold uyvy_expected_pixel. cbn zeta.
      destruct (phase_step z x Hz) as (Hx2 & _).
      repeat (f_equal; try lia).
    + right. destruct (phase_step z (width f - 1) Hz) as (Hlast & _).
      replace (z + width f - 1) with (z + (width f - 1)) by lia.
      assert (0 ≤ (z + (width f - 1)) `mod` 2) by (apply Z.mod_pos_bound; lia). lia.
Qed.

Lemma packed422_rows_any_width_witness :
  _jpeg_write_scanlines_yuyv
    (Frame 3 2 V4L2_PIX_FMT_YUYV 1
       [16; 90; 235; 240; 81; 54; 0; 145; 34; 41; 110; 210; 200; 7; 170; 166] 0)
  = Some <$> [[173; 0; 0; 255; 168; 167; 104; 94; 0];
              [13; 255; 0; 141; 0; 9; 255; 164; 178]].
Proof.
  apply (packed422_rows_any_width
           (Frame 3 2 V4L2_PIX_FMT_YUYV 1
              [16; 90; 235; 240; 81; 54; 0; 145; 34; 41; 110; 210; 200; 7; 170; 166] 0));
    cbn; lia.
Defined.

(** ** Buffers that end early *)

(** X12. The RGB24 feeder reads, for row [r], the [3 * width] bytes from
    [r * (3 * width + padding)] and nothing else, without looking at the
    length of the frame's buffer: the row is defined, and is those source
    bytes, exactly when they lie inside the buffer, and an undefined read
    otherwise.  The padding after the last row is never read, so a buffer
    that stops right after the last pixel is enough. *)
Theorem rgb24_truncated_buffer (f : us_frame_s) (r : Z) :
  0 < width f → 0 ≤ padding f → 0 ≤ r < height f →
  let start := r * (width f * 3 + padding f) in
  (start + width f * 3 ≤ Z.of_nat (length (data f)) →
     _jpeg_write_scanlines_rgb24 f !! Z.to_nat r
     = Some (Some (take (Z.to_nat (width f * 3)) (drop (Z.to_nat start) (data f)))))
  ∧ (Z.of_nat (length (data f)) < start + width f * 3 →
     _jpeg_write_scanlines_rgb24 f !! Z.to_nat r = Some None).
Proof.
  intros Hw Hp Hr start.
  assert (Hrows : _jpeg_write_scanlines_rgb24 f
                  = (λ r, read_bytes (data f) (r * (width f * 3 + padding f))
                            (Z.to_nat (width f * 3))) <$> seqZ 0 (height f)).
  { unfold _jpeg_write_scanlines_rgb24, us_frame_get_padding.
    rewrite <-(seqZ_to_nat 0 (height f)).
    apply (scanline_loop_rows _ (λ r, r * (width f * 3 + padding f)) _ _ 0).
    intros r' Hr'. f_equal. lia. }
  assert (0 ≤ start) by (apply Z.mul_nonneg_nonneg; lia).
  rewrite Hrows, list_lookup_fmap, lookup_seqZ_lt by lia. cbn.
  replace (0 + Z.of_nat (Z.to_nat r)) with r by lia. fold start.
  split; intros Hlen; f_equal.
  - apply read_bytes_take_drop; lia.
  - apply read_bytes_past_end; lia.
Qed.

Lemma rgb24_truncated_buffer_witness :
  _jpeg_write_scanlines_rgb24
    (Frame 2 2 V4L2_PIX_FMT_RGB24 2 [1; 2; 3; 4; 5; 6; 90; 91; 7; 8; 9; 10; 11; 12] 0)
  !! 1%nat = Some (Some [7; 8; 9; 10; 11; 12]).
Proof.
  apply (rgb24_truncated_buffer
           (Frame 2 2 V4L2_PIX_FMT_RGB24 2 [1; 2; 3; 4; 5; 6; 90; 91; 7; 8; 9; 10; 11; 12] 0)
           1); cbn; lia.
Defined.
